(** * Dashboard aggregation of [dojo/home/views.py]

    A shallow embedding of the dashboard view of DefectDojo: the counts over
    the trailing week, the totals per severity ([get_severities_all]) and the
    table per month and severity ([get_severities_by_month]).

    The view talks to the database through Django's ORM.  A [QuerySet] is
    modelled as the rows it selects in a given database state, and every call
    that sends a query ([count], iteration) as a computation in a state monad
    over the database, so that what the view reads and what it leaves
    untouched are both visible in the model. *)

From Stdlib Require Import ZArith Lia String Ascii OrdersEx Sorted Permutation.
From stdpp Require Import base option list gmap strings pretty sorting.

Local Open Scope Z_scope.

(** ** Calendar dates, as Python's [datetime.date] *)

Record date := mk_date { year : Z; month : Z; day : Z }.

Global Instance date_eq_dec : EqDecision date.
Proof. solve_decision. Defined.

(** [calendar.isleap] *)
Definition isleap (yr : Z) : bool :=
  (yr mod 4 =? 0) && (negb (yr mod 100 =? 0) || (yr mod 400 =? 0)).

(** [_DAYS_IN_MONTH] and [_DAYS_BEFORE_MONTH] of [datetime.py] *)
Definition DAYS_IN_MONTH (mo : Z) : Z :=
  match mo with
  | 1 => 31 | 2 => 28 | 3 => 31 | 4 => 30 | 5 => 31 | 6 => 30
  | 7 => 31 | 8 => 31 | 9 => 30 | 10 => 31 | 11 => 30 | 12 => 31
  | _ => -1
  end.

Definition DAYS_BEFORE_MONTH (mo : Z) : Z :=
  match mo with
  | 1 => 0 | 2 => 31 | 3 => 59 | 4 => 90 | 5 => 120 | 6 => 151
  | 7 => 181 | 8 => 212 | 9 => 243 | 10 => 273 | 11 => 304 | 12 => 334
  | _ => -1
  end.

(** [calendar.monthrange(year, month)[1]]: the number of days of a month *)
Definition days_in_month (yr mo : Z) : Z :=
  DAYS_IN_MONTH mo + (if (mo =? 2) && isleap yr then 1 else 0).

Definition days_before_year (yr : Z) : Z :=
  let y := yr - 1 in y * 365 + y / 4 - y / 100 + y / 400.

Definition days_before_month (yr mo : Z) : Z :=
  DAYS_BEFORE_MONTH mo + (if (2 <? mo) && isleap yr then 1 else 0).

(** [date.toordinal]: 0001-01-01 is day 1 *)
Definition toordinal (dt : date) : Z :=
  days_before_year (year dt) + days_before_month (year dt) (month dt) + day dt.

(** [date.fromordinal], the [_ord2ymd] of [datetime.py] *)
Definition fromordinal (ordinal : Z) : date :=
  let n := ordinal - 1 in
  let n400 := n / 146097 in
  let n := n mod 146097 in
  let n100 := n / 36524 in
  let n := n mod 36524 in
  let n4 := n / 1461 in
  let n := n mod 1461 in
  let n1 := n / 365 in
  let n := n mod 365 in
  let yr := n400 * 400 + 1 + n100 * 100 + n4 * 4 + n1 in
  if (n1 =? 4) || (n100 =? 4) then mk_date (yr - 1) 12 31
  else
    let leapyear := (n1 =? 3) && (negb (n4 =? 24) || (n100 =? 3)) in
    let mo := Z.shiftr (n + 50) 5 in
    let preceding :=
      DAYS_BEFORE_MONTH mo + (if (2 <? mo) && leapyear then 1 else 0) in
    if n <? preceding then
      let mo := mo - 1 in
      let preceding :=
        preceding
        - (DAYS_IN_MONTH mo + (if (mo =? 2) && leapyear then 1 else 0)) in
      mk_date yr mo (n - preceding + 1)
    else mk_date yr mo (n - preceding + 1).

(** [dt - timedelta(days=n)].  Python raises [OverflowError] when the result
    leaves the years 1..9999; the model computes on all of [Z]. *)
Definition sub_timedelta_days (dt : date) (n : Z) : date :=
  fromordinal (toordinal dt - n).

(** [dt - relativedelta(months=n)] of [dateutil], for [1 <= n <= 12]: the
    month moves back, the year follows, and the day is clipped to the length
    of the month reached. *)
Definition sub_relativedelta_months (dt : date) (n : Z) : date :=
  let mo := month dt - n in
  let '(yr, mo) :=
    if 12 <? mo then (year dt + 1, mo - 12)
    else if mo <? 1 then (year dt - 1, mo + 12)
    else (year dt, mo) in
  mk_date yr mo (Z.min (days_in_month yr mo) (day dt)).

(** Dates compare as the tuples (year, month, day). *)
Definition date_compare (d1 d2 : date) : comparison :=
  match year d1 ?= year d2 with
  | Eq => match month d1 ?= month d2 with
          | Eq => day d1 ?= day d2
          | ne => ne
          end
  | ne => ne
  end.

Definition date_le (d1 d2 : date) : Prop := date_compare d1 d2 ≠ Gt.
Definition date_lt (d1 d2 : date) : Prop := date_compare d1 d2 = Lt.

Global Instance date_le_dec d1 d2 : Decision (date_le d1 d2).
Proof. unfold date_le. solve_decision. Defined.
Global Instance date_lt_dec d1 d2 : Decision (date_lt d1 d2).
Proof. unfold date_lt. solve_decision. Defined.

(** A date of the proleptic Gregorian calendar that Python accepts. *)
Definition valid_date (dt : date) : Prop :=
  1 ≤ year dt ≤ 9999 ∧ 1 ≤ month dt ≤ 12
  ∧ 1 ≤ day dt ≤ days_in_month (year dt) (month dt).

(** ** Points in time, as Python's [datetime.datetime]

    The time of day is kept as the microseconds since 0:00. *)

Record datetime := mk_datetime { date_of : date; time_of : Z }.

Global Instance datetime_eq_dec : EqDecision datetime.
Proof. solve_decision. Defined.

Definition datetime_compare (t1 t2 : datetime) : comparison :=
  match date_compare (date_of t1) (date_of t2) with
  | Eq => time_of t1 ?= time_of t2
  | ne => ne
  end.

Definition datetime_le (t1 t2 : datetime) : Prop := datetime_compare t1 t2 ≠ Gt.

Global Instance datetime_le_dec t1 t2 : Decision (datetime_le t1 t2).
Proof. unfold datetime_le. solve_decision. Defined.

(** What Django's [DateTimeField.to_python] makes of a [date] handed to a
    lookup on a [DateTimeField]: [datetime.datetime(year, month, day)], that
    is 0:00 of that day. *)
Definition DateTimeField_to_python (d : date) : datetime := mk_datetime d 0.

(** ** The entities the view reads *)

Module Risk_Acceptance.
Record t := mk { created : datetime }.
End Risk_Acceptance.

Module Finding.
(** The columns the view uses; [pk] is the column [id].  [severity] is a
    character column; the database value NULL is [None].  [created] is a
    [DateTimeField]: the view applies the [__date] transform to it, which
    only such a field has. *)
Record t := mk {
  pk : Z;
  severity : option string;
  created : datetime;
  mitigated : option datetime;
  risk_acceptance_set : list Risk_Acceptance.t
}.
End Finding.

Module Engagement.
Record t := mk { active : bool }.
End Engagement.

Global Instance Risk_Acceptance_eq_dec : EqDecision Risk_Acceptance.t.
Proof. solve_decision. Defined.
Global Instance Finding_eq_dec : EqDecision Finding.t.
Proof. solve_decision. Defined.
Global Instance Engagement_eq_dec : EqDecision Engagement.t.
Proof. solve_decision. Defined.

(** ** The database and the ORM *)

Record Database := mk_Database {
  Engagement_objects : list Engagement.t;
  Finding_objects : list Finding.t
}.

(** A query set is lazy: it denotes the rows it would select, in whatever
    state the database is in when it is evaluated. *)
Definition QuerySet (A : Type) : Type := Database → list A.

(** Computations that may read and write the database. *)
Definition DB (A : Type) : Type := Database → A * Database.

Global Instance DB_ret : MRet DB := λ A x db, (x, db).
Global Instance DB_bind : MBind DB := λ A B f m db,
  let '(x, db') := m db in f x db'.

(** Iterating over a query set sends a SELECT. *)
Definition fetch {A} (q : QuerySet A) : DB (list A) := λ db, (q db, db).

(** [QuerySet.count()] sends a SELECT COUNT. *)
Definition count {A} (q : QuerySet A) : DB Z :=
  λ db, (Z.of_nat (length (q db)), db).

(** [QuerySet.filter] on columns of the row itself *)
Definition qs_filter {A} (P : A → Prop) `{!∀ x, Decision (P x)}
    (q : QuerySet A) : QuerySet A :=
  λ db, filter P (q db).

(** [Count('severity')] over the rows of one group: SQL's COUNT of a column
    counts the rows in which the column is not NULL. *)
Definition Count_severity (rows : list Finding.t) : Z :=
  Z.of_nat (length (filter (λ f, is_Some (Finding.severity f)) rows)).

(** [.values(cols).annotate(count=Count('severity')).order_by()]: GROUP BY the
    columns [cols], one row per distinct value of them (NULLs form a group
    of their own), each with its count.  The order of the groups is left to
    the database; the model lists them in the order [remove_dups] gives. *)
Definition values_annotate_count {K} `{!EqDecision K} (cols : Finding.t → K)
    (q : QuerySet Finding.t) : QuerySet (K * Z) :=
  λ db,
    let rows := q db in
    (λ k, (k, Count_severity (filter (λ f, cols f = k) rows)))
      <$> remove_dups (cols <$> rows).

(** ** [defaultdict] *)

Record defaultdict := mk_defaultdict {
  default_factory : option (() → Z);
  dict_items : gmap (option string) Z
}.

(** [d[k]]: the value stored under [k]; for a missing key, the value the
    factory makes, which is stored under [k] as well; [None] stands for the
    [KeyError] of a dictionary without factory. *)
Definition defaultdict_getitem (d : defaultdict) (k : option string)
    : option (Z * defaultdict) :=
  match dict_items d !! k with
  | Some v => Some (v, d)
  | None =>
      match default_factory d with
      | Some mk =>
          Some (mk (), mk_defaultdict (default_factory d) (<[k := mk ()]> (dict_items d)))
      | None => None
      end
  end.

(** A dict display or comprehension: later items overwrite earlier ones. *)
Definition dict_of_items {K V} `{Countable K} (items : list (K * V)) : gmap K V :=
  foldl (λ d kv, <[kv.1 := kv.2]> d) ∅ items.

(** ** [get_severities_all] *)

Definition get_severities_all (findings : QuerySet Finding.t) : DB defaultdict :=
  severities_all ← fetch (values_annotate_count Finding.severity findings);
  mret (mk_defaultdict (Some (λ _, 0)) (dict_of_items severities_all)).

(** ** [get_severities_by_month] *)

(** [f"{n:02}"]: decimal, filled with zeros to a width of two; a sign counts
    for the width. *)
Definition format_02 (n : Z) : string :=
  if decide (0 ≤ n < 10) then "0" +:+ pretty n else pretty n.

(** [f"{created__year}-{created__month:02}"] *)
Definition month_key (yr mo : Z) : string :=
  pretty yr +:+ "-" +:+ format_02 mo.

Definition SEVERITY_MAP : gmap string string :=
  <["Critical" := "a"]> (<["High" := "b"]> (<["Medium" := "c"]>
  (<["Low" := "d"]> (<["Info" := "e"]> ∅)))).

(** [SEVERITY_MAP.get(severity)]; the severity of a row may be NULL, which
    is no key of the map. *)
Definition SEVERITY_MAP_get (sev : option string) : option string :=
  s ← sev; SEVERITY_MAP !! s.

(** One row of the chart: the dict
    [{'y': key, 'a': 0, 'b': 0, 'c': 0, 'd': 0, 'e': 0, None: 0}].  The entry
    ['y'] holds a string and the six others hold integers, so the record
    keeps them apart; the counters stay a dictionary keyed by ['a'] .. ['e']
    and [None]. *)
Record month_stats := mk_month_stats {
  y : string;
  counts : gmap (option string) Z
}.

Definition new_month_stats (key : string) : month_stats :=
  mk_month_stats key
    (<[Some "a" := 0]> (<[Some "b" := 0]> (<[Some "c" := 0]>
    (<[Some "d" := 0]> (<[Some "e" := 0]> (<[None := 0]> ∅)))))).

(** [month_stats[k] += n].  Python raises [KeyError] for a key the row does
    not have; [SEVERITY_MAP_get] only yields keys of the row (lemma
    [SEVERITY_MAP_get_key]). *)
Definition add_count (k : option string) (n : Z) (ms : month_stats) : month_stats :=
  mk_month_stats (y ms) (alter (λ v, v + n) k (counts ms)).

(** A row of the grouped query: [created__year], [created__month],
    [severity] and [count]. *)
Definition month_row : Type := (Z * Z * option string) * Z.

Definition year_month_severity (f : Finding.t) : Z * Z * option string :=
  (year (date_of (Finding.created f)), month (date_of (Finding.created f)),
   Finding.severity f).

(** The body of the loop: [results.setdefault(key, ...)] hands out the row
    stored under [key], and the update of it is seen through [results]. *)
Definition reshape_step (results : gmap string month_stats) (ms : month_row)
    : gmap string month_stats :=
  let '((yr, mo, sev), cnt) := ms in
  let key := month_key yr mo in
  let stats := default (new_month_stats key) (results !! key) in
  <[key := add_count (SEVERITY_MAP_get sev) cnt stats]> results.

(** The order of Python's [str], by code point. *)
Definition str_le (s1 s2 : string) : Prop := String_as_OT.compare s1 s2 ≠ Gt.
Definition str_lt (s1 s2 : string) : Prop := String_as_OT.compare s1 s2 = Lt.

Global Instance str_le_dec s1 s2 : Decision (str_le s1 s2).
Proof. unfold str_le. solve_decision. Defined.
Global Instance str_lt_dec s1 s2 : Decision (str_lt s1 s2).
Proof. unfold str_lt. solve_decision. Defined.

(** [sorted(results.items())] compares the pairs (key, row); the keys of a
    dictionary differ, so the comparison is decided by the keys. *)
Definition item_le (i1 i2 : string * month_stats) : Prop := str_le i1.1 i2.1.

Global Instance item_le_dec i1 i2 : Decision (item_le i1 i2).
Proof. unfold item_le. apply _. Defined.

Definition sorted_items (results : gmap string month_stats)
    : list (string * month_stats) :=
  merge_sort item_le (map_to_list results).

(** [created__date__gte=d]: the date of the creation time is [d] or later. *)
Definition created__date__gte (d : date) (f : Finding.t) : Prop :=
  date_le d (date_of (Finding.created f)).

Global Instance created__date__gte_dec d f : Decision (created__date__gte d f).
Proof. unfold created__date__gte. apply _. Defined.

Definition get_severities_by_month (findings : QuerySet Finding.t) (today : date)
    : DB (list month_stats) :=
  let severities_by_month :=
    values_annotate_count year_month_severity
      (qs_filter (created__date__gte (sub_relativedelta_months today 6)) findings) in
  rows ← fetch severities_by_month;
  let results := foldl reshape_step ∅ rows in
  mret ((sorted_items results).*2).

(** ** [dashboard] *)

(** [field__gte=lo, field__lte=hi] on a [DateTimeField], with dates for [lo]
    and [hi]: Django turns each date into the [datetime] at 0:00 of it. *)
Definition datetime_between (lo hi : date) (t : datetime) : Prop :=
  datetime_le (DateTimeField_to_python lo) t
  ∧ datetime_le t (DateTimeField_to_python hi).

Global Instance datetime_between_dec lo hi t : Decision (datetime_between lo hi t).
Proof. unfold datetime_between. apply _. Defined.

Definition created_between (lo hi : date) (f : Finding.t) : Prop :=
  datetime_between lo hi (Finding.created f).

(** A NULL [mitigated] satisfies no comparison. *)
Definition mitigated_between (lo hi : date) (f : Finding.t) : Prop :=
  match Finding.mitigated f with
  | Some t => datetime_between lo hi t
  | None => False
  end.

(** [risk_acceptance__created__gte=lo, risk_acceptance__created__lte=hi]: the
    findings joined with their risk acceptances, both conditions on the same
    risk acceptance.  [findings] is [.distinct()], so a finding with several
    such risk acceptances is selected once. *)
Definition risk_acceptance_created_between (lo hi : date) (f : Finding.t) : Prop :=
  Exists (λ ra, datetime_between lo hi (Risk_Acceptance.created ra))
    (Finding.risk_acceptance_set f).

Global Instance created_between_dec lo hi f : Decision (created_between lo hi f).
Proof. unfold created_between. apply _. Defined.
Global Instance mitigated_between_dec lo hi f : Decision (mitigated_between lo hi f).
Proof. unfold mitigated_between. destruct (Finding.mitigated f); apply _. Defined.
Global Instance risk_acceptance_created_between_dec lo hi f :
  Decision (risk_acceptance_created_between lo hi f).
Proof. unfold risk_acceptance_created_between. apply _. Defined.

(** The three counts over the trailing week (lines 35 to 42). *)
Definition trailing_week_counts (findings : QuerySet Finding.t) (today : date)
    : DB (Z * Z * Z) :=
  let beginning_date := sub_timedelta_days today 6 in
  finding_count ← count (qs_filter (created_between beginning_date today) findings);
  mitigated_count ← count (qs_filter (mitigated_between beginning_date today) findings);
  accepted_count ←
    count (qs_filter (risk_acceptance_created_between beginning_date today) findings);
  mret (finding_count, mitigated_count, accepted_count).

(** The part of the template context that the view computes itself. *)
Record context := mk_context {
  engagement_count : Z;
  finding_count : Z;
  mitigated_count : Z;
  accepted_count : Z;
  critical : Z;
  high : Z;
  medium : Z;
  low : Z;
  info : Z;
  by_month : list month_stats
}.


(** ** Vocabulary of the statements *)

Definition Zsum (l : list Z) : Z := foldr Z.add 0 l.

(** The sum of a dictionary's values over all its keys. *)
Definition sum_values {K} `{Countable K} (d : gmap K Z) : Z :=
  Zsum (map_to_list d).*2.

(** The number of rows that satisfy [P]. *)
Definition how_many {A} (P : A → Prop) `{!∀ x, Decision (P x)} (l : list A) : Z :=
  Z.of_nat (length (filter P l)).

(** The findings of the collection that the monthly table looks at. *)
Definition in_window (today : date) (fs : list Finding.t) : list Finding.t :=
  filter (created__date__gte (sub_relativedelta_months today 6)) fs.

Definition created_year (f : Finding.t) : Z := year (date_of (Finding.created f)).
Definition created_month (f : Finding.t) : Z := month (date_of (Finding.created f)).

Definition finding_month_key (f : Finding.t) : string :=
  month_key (created_year f) (created_month f).

(** The row with key [key] whose six counters are given by [n]. *)
Definition stats_of (key : string) (n : option string → Z) : month_stats :=
  mk_month_stats key
    (<[Some "a" := n (Some "a")]> (<[Some "b" := n (Some "b")]>
    (<[Some "c" := n (Some "c")]> (<[Some "d" := n (Some "d")]>
    (<[Some "e" := n (Some "e")]> (<[None := n None]> ∅)))))).

(** The findings of [fs] with key [key] and a severity that is not NULL and
    that [SEVERITY_MAP.get] sends to the slot [slot]. *)
Definition slot_count (fs : list Finding.t) (key : string) (slot : option string) : Z :=
  how_many (λ f, (finding_month_key f = key ∧ SEVERITY_MAP_get (Finding.severity f) = slot)
                 ∧ is_Some (Finding.severity f)) fs.

(** The size of the group [k] of [values_annotate_count cols]. *)
Definition group_size {K} `{!EqDecision K} (cols : Finding.t → K)
    (rows : list Finding.t) (k : K) : Z :=
  Count_severity (filter (λ f, cols f = k) rows).

(** The key of a row of the grouped query, and the sum of the counts of the
    rows of [gs] with key [key] whose severity goes to the slot [slot]. *)
Definition row_key (g : month_row) : string := month_key g.1.1.1 g.1.1.2.

Definition slot_sum (gs : list month_row) (key : string) (slot : option string) : Z :=
  Zsum ((λ g, if decide (row_key g = key ∧ SEVERITY_MAP_get g.1.2 = slot)
              then g.2 else 0) <$> gs).

(** Months in the order of the calendar. *)
Definition month_lt (m1 m2 : Z * Z) : Prop :=
  m1.1 < m2.1 ∨ (m1.1 = m2.1 ∧ m1.2 < m2.2).

(** [check_from n i P]: [P] holds at [i], [i+1], ..., [i+n-1]. *)
Fixpoint check_from (n : nat) (i : Z) (P : Z → bool) : bool :=
  match n with
  | O => true
  | S n' => P i && check_from n' (i + 1) P
  end.

(** ** Sample data *)

(** The query set of all findings in the database. *)
Definition all_findings : QuerySet Finding.t := Finding_objects.

(** A finding with the given key, severity and creation time, not mitigated
    and without risk acceptance. *)
Definition sample_finding (pk : Z) (sev : option string) (d : date) (time : Z)
    : Finding.t :=
  Finding.mk pk sev (mk_datetime d time) None [].

Definition sample_today : date := mk_date 2022 6 15.

(** One finding without severity, created on the day of the request. *)
Definition db_null_severity : Database :=
  mk_Database [] [sample_finding 1 None (mk_date 2022 6 15) 0].

(** One finding created at 10:00 on the day of the request. *)
Definition db_created_today : Database :=
  mk_Database [] [sample_finding 1 (Some "High") (mk_date 2022 6 15) 36000000000].

(** Two findings around the turn of the year 1000. *)
Definition db_year_1000 : Database :=
  mk_Database []
    [sample_finding 1 (Some "Critical") (mk_date 999 12 20) 0;
     sample_finding 2 (Some "High") (mk_date 1000 1 10) 0].

(** A mixed collection: known, unknown and missing severities, one finding
    seven months old. *)
Definition db_mixed : Database :=
  mk_Database [Engagement.mk true]
    [sample_finding 1 (Some "Critical") (mk_date 2022 6 1) 0;
     sample_finding 2 (Some "Urgent") (mk_date 2022 6 2) 0;
     sample_finding 3 None (mk_date 2022 5 20) 0;
     sample_finding 4 (Some "High") (mk_date 2021 11 15) 0].

(** * Properties *)

(** ** Sums and groups *)

Lemma Zsum_app l1 l2 : Zsum (l1 ++ l2) = Zsum l1 + Zsum l2.
Proof. unfold Zsum. induction l1 as [|x l1 IH]; simpl; lia. Qed.

Lemma Zsum_Permutation l1 l2 : l1 ≡ₚ l2 → Zsum l1 = Zsum l2.
Proof. unfold Zsum. induction 1; simpl; lia. Qed.

Lemma Zsum_fmap_add {A} (g h : A → Z) (l : list A) :
  Zsum ((λ x, g x + h x) <$> l) = Zsum (g <$> l) + Zsum (h <$> l).
Proof. unfold Zsum. induction l as [|x l IH]; csimpl; lia. Qed.

Lemma Zsum_fmap_zero {A} (l : list A) : Zsum ((λ _, 0) <$> l) = 0.
Proof. unfold Zsum. induction l as [|x l IH]; csimpl; lia. Qed.

Lemma Zsum_fmap_ext {A} (g h : A → Z) (l : list A) :
  (∀ x, x ∈ l → g x = h x) → Zsum (g <$> l) = Zsum (h <$> l).
Proof.
  intros Hext. f_equal. apply Forall_fmap_ext, Forall_forall. exact Hext.
Qed.


(** Over a list without duplicates, an indicator of one element sums to the
    value it carries. *)
Lemma Zsum_indicator {A} `{!EqDecision A} (l : list A) (x0 : A) (c : Z) :
  NoDup l →
  Zsum ((λ x, if decide (x = x0) then c else 0) <$> l)
  = if decide (x0 ∈ l) then c else 0.
Proof.
  induction 1 as [|x l Hx Hl IH].
  - rewrite decide_False; [done | apply not_elem_of_nil].
  - rewrite fmap_cons. change (Zsum ?l) with (foldr Z.add 0 l) at 1. cbn [foldr].
    fold (Zsum ((λ x, if decide (x = x0) then c else 0) <$> l)). rewrite IH.
    destruct (decide (x = x0)) as [->|Hne], (decide (x0 ∈ l)) as [Hin|Hnin];
      try done.
    + rewrite decide_True by (apply elem_of_cons; by left). lia.
    + rewrite decide_True by (apply elem_of_cons; by right). lia.
    + rewrite decide_False; [lia|]. intros [?|?]%elem_of_cons; congruence.
Qed.

Lemma how_many_cons {A} (P : A → Prop) `{!∀ x, Decision (P x)} x l :
  how_many P (x :: l) = (if decide (P x) then 1 else 0) + how_many P l.
Proof.
  unfold how_many. rewrite filter_cons. destruct (decide (P x)); simpl; lia.
Qed.

Lemma how_many_nonneg {A} (P : A → Prop) `{!∀ x, Decision (P x)} l :
  0 ≤ how_many P l.
Proof. unfold how_many. lia. Qed.

Lemma how_many_ext {A} (P Q : A → Prop) `{!∀ x, Decision (P x)}
    `{!∀ x, Decision (Q x)} l :
  (∀ x, x ∈ l → P x ↔ Q x) → how_many P l = how_many Q l.
Proof.
  induction l as [|x l IH]; intros Hext; [done|].
  rewrite !how_many_cons, IH.
  - assert (P x ↔ Q x) as Hx by (apply Hext; left).
    destruct (decide (P x)), (decide (Q x)); tauto || done.
  - intros z Hz. apply Hext. by right.
Qed.

Lemma how_many_pos {A} (P : A → Prop) `{!∀ x, Decision (P x)} l x :
  x ∈ l → P x → 1 ≤ how_many P l.
Proof.
  intros Hin HP. unfold how_many.
  assert (x ∈ filter P l) as Hf by (by apply list_elem_of_filter).
  destruct (filter P l); [by apply not_elem_of_nil in Hf | simpl; lia].
Qed.

Lemma how_many_zero {A} (P : A → Prop) `{!∀ x, Decision (P x)} l :
  (∀ x, x ∈ l → ¬ P x) → how_many P l = 0.
Proof.
  induction l as [|x l IH]; intros HP; [done|].
  rewrite how_many_cons, IH, decide_False; [done| |].
  - apply HP. left.
  - intros z Hz. apply HP. by right.
Qed.

Lemma how_many_filter {A} (P Q : A → Prop) `{!∀ x, Decision (P x)}
    `{!∀ x, Decision (Q x)} l :
  how_many P (filter Q l) = how_many (λ x, P x ∧ Q x) l.
Proof. unfold how_many. by rewrite list_filter_filter. Qed.

Lemma Count_severity_how_many rows :
  Count_severity rows = how_many (λ f, is_Some (Finding.severity f)) rows.
Proof. reflexivity. Qed.

Section groups.
Context {K : Type} `{!EqDecision K} (cols : Finding.t → K).

Lemma group_size_how_many rows k :
  group_size cols rows k
  = how_many (λ f, is_Some (Finding.severity f) ∧ cols f = k) rows.
Proof. unfold group_size. rewrite Count_severity_how_many. apply how_many_filter. Qed.

Lemma group_size_cons f rows k :
  group_size cols (f :: rows) k
  = (if decide (k = cols f)
     then (if decide (is_Some (Finding.severity f)) then 1 else 0) else 0)
    + group_size cols rows k.
Proof.
  rewrite !group_size_how_many, how_many_cons.
  destruct (decide (k = cols f)) as [->|Hne].
  - destruct (decide (is_Some (Finding.severity f))).
    + by rewrite decide_True.
    + rewrite decide_False; [done | tauto].
  - rewrite decide_False; [done|]. intros [_ ?]. congruence.
Qed.

(** Summing the sizes of the groups selected by [P] counts the rows whose
    group is selected and whose severity is not NULL: the groups partition
    the rows. *)
Lemma group_size_sum (P : K → Prop) `{!∀ k, Decision (P k)}
    (rows : list Finding.t) (ks : list K) :
  NoDup ks → (∀ f, f ∈ rows → cols f ∈ ks) →
  Zsum ((λ k, if decide (P k) then group_size cols rows k else 0) <$> ks)
  = how_many (λ f, P (cols f) ∧ is_Some (Finding.severity f)) rows.
Proof.
  intros Hnd. induction rows as [|f rows IH]; intros Hks.
  - rewrite (Zsum_fmap_ext _ (λ _, 0)); [apply Zsum_fmap_zero|].
    intros k _. by destruct (decide (P k)).
  - rewrite how_many_cons, <-IH by (intros g Hg; apply Hks; by right).
    set (c := if decide (P (cols f) ∧ is_Some (Finding.severity f)) then 1 else 0).
    rewrite (Zsum_fmap_ext _ (λ k, (if decide (k = cols f) then c else 0)
      + (if decide (P k) then group_size cols rows k else 0))).
    + rewrite Zsum_fmap_add, Zsum_indicator by done.
      rewrite decide_True; [done|]. apply Hks. left.
    + intros k _. rewrite group_size_cons. unfold c.
      destruct (decide (P k)) as [HP|HP], (decide (k = cols f)) as [->|Hne];
        try lia.
      * destruct (decide (is_Some (Finding.severity f))).
        -- by rewrite decide_True.
        -- rewrite decide_False; [done | tauto].
      * rewrite decide_False; [done | tauto].
Qed.

Lemma values_annotate_count_unfold (q : QuerySet Finding.t) db :
  values_annotate_count cols q db
  = (λ k, (k, group_size cols (q db) k)) <$> remove_dups (cols <$> q db).
Proof. reflexivity. Qed.

Lemma group_keys_complete rows f : f ∈ rows → cols f ∈ remove_dups (cols <$> rows).
Proof.
  intros Hf. apply elem_of_remove_dups, list_elem_of_fmap. by exists f.
Qed.
End groups.

(** ** Dictionaries built from keyed items *)

Section keyed.
Context {K V : Type} `{Countable K} (g : K → V).

Lemma dict_of_items_snoc (items : list (K * V)) k v :
  dict_of_items (items ++ [(k, v)]) = <[k := v]> (dict_of_items items).
Proof. unfold dict_of_items. by rewrite foldl_snoc. Qed.

Lemma dict_of_items_keyed (ks : list K) (k : K) :
  dict_of_items ((λ k, (k, g k)) <$> ks) !! k
  = if decide (k ∈ ks) then Some (g k) else None.
Proof.
  induction ks as [|k' ks IH] using rev_ind.
  - rewrite decide_False by apply not_elem_of_nil. apply lookup_empty.
  - rewrite fmap_app. csimpl. rewrite dict_of_items_snoc, lookup_insert.
    destruct (decide (k' = k)) as [->|Hne].
    + rewrite decide_True; [done|]. apply elem_of_app. right. left.
    + rewrite IH. destruct (decide (k ∈ ks)) as [Hin|Hnin].
      * rewrite decide_True; [done|]. apply elem_of_app. by left.
      * rewrite decide_False; [done|].
        intros [?|Hk]%elem_of_app; [done|].
        apply list_elem_of_singleton in Hk. congruence.
Qed.

Lemma map_to_list_keyed (ks : list K) :
  NoDup ks →
  map_to_list (dict_of_items ((λ k, (k, g k)) <$> ks)) ≡ₚ (λ k, (k, g k)) <$> ks.
Proof.
  intros Hnd. apply NoDup_Permutation.
  - apply NoDup_map_to_list.
  - apply NoDup_fmap_2; [|done]. intros k1 k2 [=]. done.
  - intros [k v]. rewrite elem_of_map_to_list, dict_of_items_keyed, list_elem_of_fmap.
    split.
    + destruct (decide (k ∈ ks)); [|done]. intros [= <-]. by exists k.
    + intros (k' & [= -> ->] & Hin). by rewrite decide_True.
Qed.
End keyed.

Lemma sum_values_keyed {K} `{Countable K} (g : K → Z) (ks : list K) :
  NoDup ks → sum_values (dict_of_items ((λ k, (k, g k)) <$> ks)) = Zsum (g <$> ks).
Proof.
  intros Hnd. unfold sum_values.
  rewrite (Zsum_Permutation _ (((λ k, (k, g k)) <$> ks).*2)).
  - by rewrite <-list_fmap_compose.
  - apply fmap_Permutation. by apply map_to_list_keyed.
Qed.
(** ** [get_severities_all] *)

Lemma get_severities_all_unfold (findings : QuerySet Finding.t) db :
  get_severities_all findings db
  = (mk_defaultdict (Some (λ _, 0))
       (dict_of_items ((λ k, (k, group_size Finding.severity (findings db) k))
                       <$> remove_dups (Finding.severity <$> findings db))),
     db).
Proof. reflexivity. Qed.

(** The entry of a severity: the number of findings that have it, where a
    NULL severity counts for nothing; no entry for a severity that no finding
    has. *)
Lemma get_severities_all_lookup (findings : QuerySet Finding.t) db k :
  dict_items (get_severities_all findings db).1 !! k
  = if decide (k ∈ Finding.severity <$> findings db)
    then Some (how_many (λ f, is_Some (Finding.severity f) ∧ Finding.severity f = k)
                 (findings db))
    else None.
Proof.
  rewrite get_severities_all_unfold. cbn [fst dict_items].
  rewrite dict_of_items_keyed, group_size_how_many.
  destruct (decide (k ∈ Finding.severity <$> findings db)) as [Hin|Hnin].
  - rewrite decide_True; [done|]. by apply elem_of_remove_dups.
  - rewrite decide_False; [done|]. by rewrite elem_of_remove_dups.
Qed.

Lemma get_severities_all_sum (findings : QuerySet Finding.t) db :
  sum_values (dict_items (get_severities_all findings db).1)
  = how_many (λ f, is_Some (Finding.severity f)) (findings db).
Proof.
  rewrite get_severities_all_unfold. cbn [fst dict_items].
  rewrite sum_values_keyed by apply NoDup_remove_dups.
  rewrite (Zsum_fmap_ext _ (λ k, if decide (True) then
             group_size Finding.severity (findings db) k else 0)) by done.
  rewrite (group_size_sum Finding.severity (λ _, True)).
  - apply how_many_ext. tauto.
  - apply NoDup_remove_dups.
  - intros f Hf. by apply group_keys_complete.
Qed.

(** ** Rows of the chart *)

Lemma new_month_stats_stats_of key : new_month_stats key = stats_of key (λ _, 0).
Proof. reflexivity. Qed.

Lemma stats_of_ext key n1 n2 : (∀ s, n1 s = n2 s) → stats_of key n1 = stats_of key n2.
Proof. intros Hn. unfold stats_of. by rewrite !Hn. Qed.

Lemma add_count_stats_of k c key n :
  add_count k c (stats_of key n)
  = stats_of key (λ s, if decide (s = k) then n s + c else n s).
Proof.
  unfold add_count, stats_of. cbn [y counts]. f_equal.
  apply map_eq. intros i. rewrite lookup_alter.
  destruct (decide (k = i)) as [->|Hne].
  - rewrite !lookup_insert, lookup_empty.
    repeat (case_decide; simplify_eq; csimpl; try done).
  - rewrite !lookup_insert, lookup_empty.
    repeat (case_decide; simplify_eq; csimpl; try done).
Qed.

(** [SEVERITY_MAP.get] only yields keys that a row has. *)
Lemma SEVERITY_MAP_get_key sev key :
  is_Some (counts (new_month_stats key) !! SEVERITY_MAP_get sev).
Proof.
  assert (∀ k, k ∈ [Some "a"; Some "b"; Some "c"; Some "d"; Some "e"; None]
               → is_Some (counts (new_month_stats key) !! k)) as Hkeys.
  { intros k Hk. exists 0. cbn [new_month_stats counts].
    repeat (apply elem_of_cons in Hk as [->|Hk]; [reflexivity|]).
    by apply not_elem_of_nil in Hk. }
  apply Hkeys. destruct sev as [s|]; [|set_solver].
  unfold SEVERITY_MAP_get, SEVERITY_MAP. csimpl. rewrite !lookup_insert, lookup_empty.
  repeat (case_decide; [set_solver|]). set_solver.
Qed.
(** ** The reshaping loop *)

Lemma slot_sum_snoc gs g key slot :
  slot_sum (gs ++ [g]) key slot
  = slot_sum gs key slot
    + (if decide (row_key g = key ∧ SEVERITY_MAP_get g.1.2 = slot) then g.2 else 0).
Proof. unfold slot_sum. rewrite fmap_app, Zsum_app. unfold Zsum. csimpl. lia. Qed.

(** What the loop leaves under a key: nothing unless a row of the query has
    the key, and else the row of the chart whose counters sum the counts of
    the rows slot by slot. *)
Lemma reshape_lookup (gs : list month_row) (key : string) :
  foldl reshape_step ∅ gs !! key
  = if decide (key ∈ row_key <$> gs) then Some (stats_of key (slot_sum gs key))
    else None.
Proof.
  induction gs as [|g gs IH] using rev_ind.
  - rewrite decide_False by apply not_elem_of_nil. apply lookup_empty.
  - rewrite foldl_snoc, fmap_app. csimpl.
    destruct g as [[[yr mo] sev] cnt]. unfold reshape_step at 1.
    assert (∀ s, slot_sum (gs ++ [((yr, mo, sev), cnt)]) key s
                 = slot_sum gs key s
                   + (if decide (month_key yr mo = key ∧ SEVERITY_MAP_get sev = s)
                      then cnt else 0)) as Hsnoc.
    { intros s. by rewrite slot_sum_snoc. }
    change (row_key (yr, mo, sev, cnt)) with (month_key yr mo).
    rewrite lookup_insert. destruct (decide (month_key yr mo = key)) as [Hk|Hk].
    + rewrite (decide_True (P := key ∈ _ ++ _))
        by (apply elem_of_app; right; rewrite Hk; left).
      f_equal. rewrite Hk, IH.
      destruct (decide (key ∈ row_key <$> gs)) as [Hin|Hnin]; csimpl.
      * rewrite add_count_stats_of. apply stats_of_ext. intros s.
        rewrite Hsnoc.
        destruct (decide (s = SEVERITY_MAP_get sev)) as [->|Hs].
        -- by rewrite decide_True.
        -- rewrite decide_False; [lia|]. intros [_ ?]. congruence.
      * rewrite new_month_stats_stats_of, add_count_stats_of.
        apply stats_of_ext. intros s. rewrite Hsnoc.
        assert (slot_sum gs key s = 0) as ->.
        { unfold slot_sum. rewrite (Zsum_fmap_ext _ (λ _, 0)); [apply Zsum_fmap_zero|].
          intros g' Hg'. rewrite decide_False; [done|]. intros [Hg'k _].
          apply Hnin. apply list_elem_of_fmap. by exists g'. }
        destruct (decide (s = SEVERITY_MAP_get sev)) as [->|Hs].
        -- by rewrite decide_True.
        -- rewrite decide_False; [lia|]. intros [_ ?]. congruence.
    + rewrite IH. destruct (decide (key ∈ row_key <$> gs)) as [Hin|Hnin].
      * rewrite decide_True by (apply elem_of_app; by left).
        f_equal. apply stats_of_ext. intros s. rewrite Hsnoc.
        rewrite decide_False; [lia|]. intros [? _]. done.
      * rewrite decide_False; [done|].
        intros [?|Hg]%elem_of_app; [done|].
        apply list_elem_of_singleton in Hg. congruence.
Qed.

(** ** The order of strings *)

Lemma str_lt_irrefl s : ¬ str_lt s s.
Proof. apply (StrictOrder_Irreflexive (R := String_as_OT.lt)). Qed.

Lemma str_lt_trans s1 s2 s3 : str_lt s1 s2 → str_lt s2 s3 → str_lt s1 s3.
Proof. apply (StrictOrder_Transitive (R := String_as_OT.lt)). Qed.

Lemma str_le_lt_eq s1 s2 : str_le s1 s2 ↔ str_lt s1 s2 ∨ s1 = s2.
Proof.
  unfold str_le, str_lt.
  destruct (String_as_OT.compare_spec s1 s2) as [Heq|Hlt|Hgt].
  - split; [by right | done].
  - split; [by left | done].
  - split; [done|]. intros [?| ->]; [done|].
    by apply str_lt_irrefl in Hgt.
Qed.

Lemma str_le_total s1 s2 : str_le s1 s2 ∨ str_le s2 s1.
Proof.
  rewrite !str_le_lt_eq.
  destruct (String_as_OT.compare_spec s1 s2) as [Heq|Hlt|Hgt]; auto.
Qed.

Global Instance item_le_total : Total item_le.
Proof. intros i1 i2. apply str_le_total. Qed.

Lemma str_lt_trichotomy s1 s2 : str_lt s1 s2 ∨ s1 = s2 ∨ str_lt s2 s1.
Proof. destruct (String_as_OT.compare_spec s1 s2) as [Heq|Hlt|Hgt]; auto. Qed.

(** A list sorted by [str_le] that has no duplicates ascends strictly. *)
Lemma Sorted_str_le_NoDup (l : list string) :
  Sorted str_le l → NoDup l → StronglySorted str_lt l.
Proof.
  intros Hs Hnd. assert (Transitive str_le) as Htrans.
  { intros s1 s2 s3. rewrite !str_le_lt_eq.
    intros [?| ->] [?| ->]; eauto using str_lt_trans. }
  apply Sorted_StronglySorted in Hs; [|done].
  induction Hs as [|s l Hl IH Hall]; [constructor|].
  apply NoDup_cons in Hnd as [Hs Hnd]. constructor; [by apply IH|].
  apply Forall_forall. intros s' Hs'.
  rewrite Forall_forall in Hall. pose proof (Hall _ Hs') as Hle.
  apply str_le_lt_eq in Hle as [?| ->]; done.
Qed.

(** ** [sorted(results.items())] *)

Lemma sorted_items_Permutation results : sorted_items results ≡ₚ map_to_list results.
Proof. apply merge_sort_Permutation. Qed.

Lemma sorted_items_elem results key row :
  (key, row) ∈ sorted_items results ↔ results !! key = Some row.
Proof. by rewrite sorted_items_Permutation, elem_of_map_to_list. Qed.

Lemma sorted_items_keys_ascend results :
  StronglySorted str_lt (sorted_items results).*1.
Proof.
  apply Sorted_str_le_NoDup.
  - apply (Sorted_fmap _ item_le); [done|]. apply Sorted_merge_sort, _.
  - rewrite sorted_items_Permutation. apply NoDup_fst_map_to_list.
Qed.
(** ** [get_severities_by_month] *)

Lemma get_severities_by_month_unfold (findings : QuerySet Finding.t) today db :
  get_severities_by_month findings today db
  = ((sorted_items
        (foldl reshape_step ∅
           ((λ k, (k, group_size year_month_severity (in_window today (findings db)) k))
            <$> remove_dups (year_month_severity <$> in_window today (findings db))))).*2,
     db).
Proof. reflexivity. Qed.

(** The dictionary [results] at the end of the loop, in terms of the
    findings in the window. *)
Lemma results_lookup (W : list Finding.t) (key : string) :
  foldl reshape_step ∅
    ((λ k, (k, group_size year_month_severity W k))
     <$> remove_dups (year_month_severity <$> W)) !! key
  = if decide (key ∈ finding_month_key <$> W)
    then Some (stats_of key (slot_count W key)) else None.
Proof.
  rewrite reshape_lookup.
  set (ks := remove_dups (year_month_severity <$> W)).
  assert (key ∈ row_key <$> ((λ k, (k, group_size year_month_severity W k)) <$> ks)
          ↔ key ∈ finding_month_key <$> W) as Hkeys.
  { rewrite <-list_fmap_compose, !list_elem_of_fmap. split.
    - intros (k & -> & Hk). apply elem_of_remove_dups, list_elem_of_fmap in Hk
        as (f & -> & Hf). by exists f.
    - intros (f & -> & Hf). exists (year_month_severity f). split; [done|].
      by apply group_keys_complete. }
  destruct (decide (key ∈ finding_month_key <$> W)) as [Hin|Hnin].
  - rewrite decide_True by (by apply Hkeys). f_equal.
    apply stats_of_ext. intros s. unfold slot_sum.
    rewrite <-list_fmap_compose.
    rewrite (Zsum_fmap_ext _ (λ k,
      if decide (month_key k.1.1 k.1.2 = key ∧ SEVERITY_MAP_get k.2 = s)
      then group_size year_month_severity W k else 0)) by done.
    rewrite (group_size_sum year_month_severity
               (λ k, month_key k.1.1 k.1.2 = key ∧ SEVERITY_MAP_get k.2 = s)).
    + reflexivity.
    + apply NoDup_remove_dups.
    + intros f Hf. by apply group_keys_complete.
  - rewrite decide_False; [done|]. by rewrite Hkeys.
Qed.

(** The rows of the result: one for every month key of a finding in the
    window, with the counters of that month. *)
Lemma by_month_elem (findings : QuerySet Finding.t) today db row :
  row ∈ (get_severities_by_month findings today db).1
  ↔ ∃ f, f ∈ in_window today (findings db)
         ∧ row = stats_of (finding_month_key f)
                   (slot_count (in_window today (findings db)) (finding_month_key f)).
Proof.
  rewrite get_severities_by_month_unfold. cbn [fst].
  set (W := in_window today (findings db)).
  rewrite list_elem_of_fmap. split.
  - intros ([key r] & -> & Hi). apply sorted_items_elem in Hi.
    rewrite results_lookup in Hi.
    destruct (decide (key ∈ finding_month_key <$> W)) as [Hin|]; [|done].
    apply list_elem_of_fmap in Hin as (f & -> & Hf).
    exists f. split; [done|]. by injection Hi as <-.
  - intros (f & Hf & ->). eexists (finding_month_key f, _). split; [reflexivity|].
    apply sorted_items_elem. rewrite results_lookup, decide_True; [done|].
    apply list_elem_of_fmap. by exists f.
Qed.

(** The keys of the result ascend strictly. *)
Lemma by_month_keys_ascend (findings : QuerySet Finding.t) today db :
  StronglySorted str_lt (y <$> (get_severities_by_month findings today db).1).
Proof.
  rewrite get_severities_by_month_unfold. cbn [fst].
  set (W := in_window today (findings db)).
  set (results := foldl reshape_step ∅ _).
  assert (y <$> (sorted_items results).*2 = (sorted_items results).*1) as ->.
  { rewrite <-list_fmap_compose. apply Forall_fmap_ext, Forall_forall.
    intros [key r] Hi. apply sorted_items_elem in Hi. unfold results in Hi.
    rewrite results_lookup in Hi. case_decide; [|done]. by injection Hi as <-. }
  apply sorted_items_keys_ascend.
Qed.
(** ** Month keys *)

Lemma app_String c s t : String c s +:+ t = String c (s +:+ t).
Proof. reflexivity. Qed.

Lemma length_app s t :
  String.length (s +:+ t) = (String.length s + String.length t)%nat.
Proof.
  induction s as [|c s IH]; [done|]. rewrite app_String. cbn [String.length].
  by rewrite IH.
Qed.

(** Two strings that end in suffixes of the same length: equal strings have
    equal parts. *)
Lemma app_inj_suffix s1 s2 t1 t2 :
  String.length t1 = String.length t2 →
  s1 +:+ t1 = s2 +:+ t2 → s1 = s2 ∧ t1 = t2.
Proof.
  intros Hlen. revert s2. induction s1 as [|c1 s1 IH]; intros [|c2 s2] Heq.
  - done.
  - exfalso. change ("" +:+ t1) with t1 in Heq.
    apply (f_equal String.length) in Heq.
    rewrite app_String in Heq. cbn [String.length] in Heq.
    rewrite length_app in Heq. lia.
  - exfalso. change ("" +:+ t2) with t2 in Heq.
    apply (f_equal String.length) in Heq.
    rewrite app_String in Heq. cbn [String.length] in Heq.
    rewrite length_app in Heq. lia.
  - rewrite !app_String in Heq. injection Heq as -> Heq.
    apply IH in Heq as [-> ->]. done.
Qed.

Lemma compare_refl s : String_as_OT.compare s s = Eq.
Proof.
  destruct (String_as_OT.compare_spec s s) as [?|Hlt|Hlt]; [done|..];
    by apply str_lt_irrefl in Hlt.
Qed.

(** ... and they compare by their first parts, then by their suffixes. *)
Lemma compare_app s1 s2 t1 t2 :
  String.length s1 = String.length s2 →
  String_as_OT.compare (s1 +:+ t1) (s2 +:+ t2)
  = match String_as_OT.compare s1 s2 with
    | Eq => String_as_OT.compare t1 t2
    | ne => ne
    end.
Proof.
  revert s2. induction s1 as [|c1 s1 IH]; intros [|c2 s2] Hlen; try done.
  rewrite !app_String. cbn [String_as_OT.compare].
  destruct (Ascii_as_OT.compare c1 c2); [|done..].
  apply IH. by injection Hlen.
Qed.

Lemma check_from_spec n i P :
  check_from n i P = true → ∀ j, i ≤ j < i + Z.of_nat n → P j = true.
Proof.
  revert i. induction n as [|n IH]; intros i Hc j Hj; [lia|].
  cbn [check_from] in Hc. apply andb_true_iff in Hc as [Hi Hc].
  destruct (decide (j = i)) as [->|Hne]; [done|].
  apply (IH (i + 1)); [done | lia].
Qed.

(** A function on integers whose value rises at every step rises over every
    stretch. *)
Lemma str_lt_steps (f : Z → string) (lo hi : Z) :
  (∀ i, lo ≤ i < hi → str_lt (f i) (f (i + 1))) →
  ∀ i j, lo ≤ i → i < j → j ≤ hi → str_lt (f i) (f j).
Proof.
  intros Hstep i j Hlo Hij Hhi.
  assert (∀ n : nat, i + 1 + Z.of_nat n ≤ hi → str_lt (f i) (f (i + 1 + Z.of_nat n)))
    as Hn.
  { induction n as [|n IH]; intros Hle.
    - rewrite Z.add_0_r. apply Hstep. lia.
    - eapply str_lt_trans; [apply IH; lia|].
      replace (i + 1 + Z.of_nat (S n)) with (i + 1 + Z.of_nat n + 1) by lia.
      apply Hstep. lia. }
  replace j with (i + 1 + Z.of_nat (Z.to_nat (j - i - 1))) by lia.
  apply Hn. lia.
Qed.

Lemma pretty_year_checked :
  check_from (Z.to_nat 9000) 1000
    (λ yr, bool_decide (String.length (pretty yr) = 4%nat
                        ∧ (yr < 9999 → str_lt (pretty yr) (pretty (yr + 1)))))
  = true.
Proof. vm_compute. reflexivity. Qed.

Lemma format_02_checked :
  check_from (Z.to_nat 12) 1
    (λ mo, bool_decide (String.length (format_02 mo) = 2%nat
                        ∧ (mo < 12 → str_lt (format_02 mo) (format_02 (mo + 1)))))
  = true.
Proof. vm_compute. reflexivity. Qed.
Lemma pretty_year_spec yr :
  1000 ≤ yr ≤ 9999 →
  String.length (pretty yr) = 4%nat
  ∧ (yr < 9999 → str_lt (pretty yr) (pretty (yr + 1))).
Proof.
  intros Hyr. pose proof (check_from_spec _ _ _ pretty_year_checked yr) as Hc.
  cbv beta in Hc. eapply bool_decide_eq_true_1, Hc. lia.
Qed.

Lemma format_02_spec mo :
  1 ≤ mo ≤ 12 →
  String.length (format_02 mo) = 2%nat
  ∧ (mo < 12 → str_lt (format_02 mo) (format_02 (mo + 1))).
Proof.
  intros Hmo. pose proof (check_from_spec _ _ _ format_02_checked mo) as Hc.
  cbv beta in Hc. eapply bool_decide_eq_true_1, Hc. lia.
Qed.

Lemma pretty_year_lt y1 y2 :
  1000 ≤ y1 → y1 < y2 → y2 ≤ 9999 → str_lt (pretty y1) (pretty y2).
Proof.
  apply (str_lt_steps pretty 1000 9999). intros i Hi.
  apply pretty_year_spec; lia.
Qed.

Lemma format_02_lt m1 m2 :
  1 ≤ m1 → m1 < m2 → m2 ≤ 12 → str_lt (format_02 m1) (format_02 m2).
Proof.
  apply (str_lt_steps format_02 1 12). intros i Hi.
  apply format_02_spec; lia.
Qed.

Lemma format_02_inj m1 m2 :
  1 ≤ m1 ≤ 12 → 1 ≤ m2 ≤ 12 → format_02 m1 = format_02 m2 → m1 = m2.
Proof.
  intros H1 H2 Heq. destruct (Z.lt_trichotomy m1 m2) as [Hlt|[?|Hlt]]; [|done|].
  - apply format_02_lt in Hlt; [|lia..]. rewrite Heq in Hlt.
    by apply str_lt_irrefl in Hlt.
  - apply format_02_lt in Hlt; [|lia..]. rewrite Heq in Hlt.
    by apply str_lt_irrefl in Hlt.
Qed.

(** The key determines the month. *)
Lemma month_key_inj y1 m1 y2 m2 :
  1 ≤ m1 ≤ 12 → 1 ≤ m2 ≤ 12 →
  month_key y1 m1 = month_key y2 m2 → y1 = y2 ∧ m1 = m2.
Proof.
  intros H1 H2 Heq. unfold month_key in Heq.
  apply app_inj_suffix in Heq as [Hy Hm].
  - split; [by apply (inj pretty)|].
    apply (String.app_inj "-") in Hm. by apply format_02_inj.
  - rewrite !length_app.
    destruct (format_02_spec m1 H1) as [-> _], (format_02_spec m2 H2) as [-> _].
    done.
Qed.

(** For years of four digits the order of the keys is the order of the
    months. *)
Lemma month_key_lt y1 m1 y2 m2 :
  1000 ≤ y1 ≤ 9999 → 1000 ≤ y2 ≤ 9999 → 1 ≤ m1 ≤ 12 → 1 ≤ m2 ≤ 12 →
  month_lt (y1, m1) (y2, m2) → str_lt (month_key y1 m1) (month_key y2 m2).
Proof.
  intros Hy1 Hy2 Hm1 Hm2 Hlt. unfold str_lt, month_key.
  rewrite compare_app.
  2: { destruct (pretty_year_spec y1 Hy1) as [-> _].
       by destruct (pretty_year_spec y2 Hy2) as [-> _]. }
  destruct Hlt as [Hlt|[Heq Hlt]]; cbn [fst snd] in *.
  - apply pretty_year_lt in Hlt; [|lia..]. unfold str_lt in Hlt. by rewrite Hlt.
  - subst y2. rewrite compare_refl, (compare_app "-" "-") by done.
    rewrite compare_refl. apply format_02_lt; lia.
Qed.

Lemma month_key_lt_iff y1 m1 y2 m2 :
  1000 ≤ y1 ≤ 9999 → 1000 ≤ y2 ≤ 9999 → 1 ≤ m1 ≤ 12 → 1 ≤ m2 ≤ 12 →
  str_lt (month_key y1 m1) (month_key y2 m2) ↔ month_lt (y1, m1) (y2, m2).
Proof.
  intros Hy1 Hy2 Hm1 Hm2. split; [|by apply month_key_lt].
  intros Hlt.
  assert (month_lt (y1, m1) (y2, m2) ∨ (y1, m1) = (y2, m2)
          ∨ month_lt (y2, m2) (y1, m1)) as [?|[[= -> ->]|Hgt]].
  { unfold month_lt. cbn [fst snd].
    destruct (Z.lt_trichotomy y1 y2) as [?|[->|?]],
             (Z.lt_trichotomy m1 m2) as [?|[->|?]]; auto. }
  - done.
  - by apply str_lt_irrefl in Hlt.
  - apply month_key_lt in Hgt; [|done..].
    destruct (str_lt_irrefl (month_key y1 m1)). by eapply str_lt_trans.
Qed.

(** ** The window of six months *)

Lemma date_compare_lt_month d1 d2 :
  year d1 < year d2 ∨ (year d1 = year d2 ∧ month d1 < month d2) →
  date_lt d1 d2.
Proof.
  unfold date_lt, date_compare. intros [Hlt|[Heq Hlt]].
  - by apply Z.compare_lt_iff in Hlt as ->.
  - rewrite Heq, Z.compare_refl. by apply Z.compare_lt_iff in Hlt as ->.
Qed.

(** Seven months back lies before six months back. *)
Lemma seven_months_before_window today :
  1 ≤ month today ≤ 12 →
  date_lt (sub_relativedelta_months today 7) (sub_relativedelta_months today 6).
Proof.
  intros Hmo. apply date_compare_lt_month. unfold sub_relativedelta_months.
  repeat match goal with
         | |- context [?a <? ?b] => destruct (Z.ltb_spec a b)
         end; cbn [year month]; lia.
Qed.

Lemma date_lt_not_le d1 d2 : date_lt d1 d2 → ¬ date_le d2 d1.
Proof.
  unfold date_lt, date_le, date_compare. intros Hlt Hle. apply Hle. clear Hle.
  destruct (Z.compare_spec (year d1) (year d2)) as [Hy|Hy|Hy]; try done.
  - rewrite <-Hy, Z.compare_refl.
    destruct (Z.compare_spec (month d1) (month d2)) as [Hm|Hm|Hm]; try done.
    + rewrite <-Hm, Z.compare_refl. by apply Z.compare_lt_iff, Z.compare_gt_iff in Hlt.
    + by apply Z.compare_gt_iff in Hm as ->.
  - by apply Z.compare_gt_iff in Hy as ->.
Qed.
(** ** The counters of a row *)

Lemma counts_stats_of key n :
  map_to_list (counts (stats_of key n))
  ≡ₚ [(Some "a", n (Some "a")); (Some "b", n (Some "b")); (Some "c", n (Some "c"));
      (Some "d", n (Some "d")); (Some "e", n (Some "e")); (None, n None)].
Proof.
  unfold stats_of. cbn [counts].
  repeat (rewrite map_to_list_insert;
          [apply Permutation_skip | by rewrite ?lookup_insert_ne by done]).
  by rewrite map_to_list_empty.
Qed.

Lemma sum_values_stats_of key n :
  sum_values (counts (stats_of key n))
  = n (Some "a") + n (Some "b") + n (Some "c") + n (Some "d") + n (Some "e")
    + n None.
Proof.
  unfold sum_values. rewrite (Zsum_Permutation _ _
    (fmap_Permutation snd _ _ (counts_stats_of key n))).
  unfold Zsum. csimpl. lia.
Qed.

Lemma counts_stats_of_lookup key n slot :
  slot ∈ [Some "a"; Some "b"; Some "c"; Some "d"; Some "e"; None] →
  counts (stats_of key n) !! slot = Some (n slot).
Proof.
  intros Hs. unfold stats_of. cbn [counts].
  repeat (apply elem_of_cons in Hs as [->|Hs];
          [by rewrite ?lookup_insert_ne, lookup_insert_eq by done|]).
  by apply not_elem_of_nil in Hs.
Qed.

Lemma SEVERITY_MAP_get_cases sev :
  SEVERITY_MAP_get sev ∈ [Some "a"; Some "b"; Some "c"; Some "d"; Some "e"; None].
Proof.
  destruct sev as [s|]; [|set_solver].
  unfold SEVERITY_MAP_get, SEVERITY_MAP. csimpl. rewrite !lookup_insert, lookup_empty.
  repeat (case_decide; [set_solver|]). set_solver.
Qed.

(** A severity outside the map goes to the slot [None]. *)
Lemma SEVERITY_MAP_get_unknown label :
  label ∉ ["Critical"; "High"; "Medium"; "Low"; "Info"] →
  SEVERITY_MAP_get (Some label) = None.
Proof.
  intros Hl. unfold SEVERITY_MAP_get, SEVERITY_MAP. csimpl.
  rewrite !lookup_insert, lookup_empty.
  repeat (case_decide; [exfalso; apply Hl; subst label; set_solver|]). done.
Qed.

(** The six slots of a month between them hold every finding of the month
    whose severity is not NULL, once. *)
Lemma slot_count_sum (fs : list Finding.t) (key : string) :
  slot_count fs key (Some "a") + slot_count fs key (Some "b")
  + slot_count fs key (Some "c") + slot_count fs key (Some "d")
  + slot_count fs key (Some "e") + slot_count fs key None
  = how_many (λ f, finding_month_key f = key ∧ is_Some (Finding.severity f)) fs.
Proof.
  unfold slot_count. induction fs as [|f fs IH]; [done|].
  rewrite !how_many_cons, <-IH. clear IH.
  pose proof (SEVERITY_MAP_get_cases (Finding.severity f)) as Hc.
  destruct (decide (finding_month_key f = key ∧ is_Some (Finding.severity f)))
    as [[Hk Hs]|Hn].
  - repeat (apply elem_of_cons in Hc as [Hc|Hc];
            [rewrite Hc; repeat (case_decide; [|try tauto; try lia]);
             repeat match goal with H : _ ∧ _ |- _ => destruct H end;
             try discriminate; try lia|]).
    by apply not_elem_of_nil in Hc.
  - repeat (rewrite decide_False by tauto). lia.
Qed.

(** ** The properties that the specification states *)

(** The entry of a label in the totals, 0 when there is none. *)
Lemma get_severities_all_counts_non_null_entries (findings : QuerySet Finding.t) db
    (label : string) :
  default 0 (dict_items (get_severities_all findings db).1 !! Some label)
  = how_many (λ f, Finding.severity f = Some label) (findings db).
Proof.
  rewrite get_severities_all_lookup.
  destruct (decide (Some label ∈ Finding.severity <$> findings db)) as [Hin|Hnin];
    cbn [default].
  - apply how_many_ext. intros f _. split; [tauto|].
    intros Hf. split; [by rewrite Hf | done].
  - symmetry. apply how_many_zero. intros f Hf Hsev. apply Hnin.
    apply list_elem_of_fmap. by exists f.
Qed.

(** C1, as the code has it: the values of the mapping of
    [get_severities_all] sum to the number of findings whose severity is not
    NULL, and the entry of a label is the number of findings with that
    label, so that each such finding is counted once, under its label. *)
Theorem get_severities_all_counts_non_null (findings : QuerySet Finding.t) db :
  sum_values (dict_items (get_severities_all findings db).1)
  = how_many (λ f, is_Some (Finding.severity f)) (findings db)
  ∧ ∀ label : string,
      default 0 (dict_items (get_severities_all findings db).1 !! Some label)
      = how_many (λ f, Finding.severity f = Some label) (findings db).
Proof.
  split; [apply get_severities_all_sum|].
  apply get_severities_all_counts_non_null_entries.
Qed.

(** C1 as stated fails: a finding without severity is in the collection and
    is not counted. *)
Lemma get_severities_all_total_counterexample :
  sum_values (dict_items (get_severities_all all_findings db_null_severity).1)
  ≠ Z.of_nat (length (all_findings db_null_severity)).
Proof. vm_compute. discriminate. Qed.

(** C7: for a severity that no finding of the collection has, the lookup in
    the mapping of [get_severities_all] raises no [KeyError]; it yields 0
    (and stores 0 under the key, as a [defaultdict] does). *)
Theorem get_severities_all_default (findings : QuerySet Finding.t) db
    (label : option string) :
  (∀ f, f ∈ findings db → Finding.severity f ≠ label) →
  defaultdict_getitem (get_severities_all findings db).1 label
  = Some (0, mk_defaultdict (default_factory (get_severities_all findings db).1)
               (<[label := 0]> (dict_items (get_severities_all findings db).1))).
Proof.
  intros Habsent. unfold defaultdict_getitem.
  rewrite get_severities_all_lookup, decide_False; [done|].
  intros (f & Hl & Hf)%list_elem_of_fmap. by apply (Habsent f).
Qed.

Lemma get_severities_all_default_witness :
  defaultdict_getitem (get_severities_all all_findings db_mixed).1 (Some "Low")
  = Some (0, mk_defaultdict
               (default_factory (get_severities_all all_findings db_mixed).1)
               (<[Some "Low" := 0]>
                  (dict_items (get_severities_all all_findings db_mixed).1))).
Proof.
  apply get_severities_all_default. intros f Hf.
  unfold all_findings, db_mixed in Hf. cbn [Finding_objects] in Hf.
  repeat (apply elem_of_cons in Hf as [->|Hf]; [discriminate|]).
  by apply not_elem_of_nil in Hf.
Defined.


(** C4 at a finding created at 10:00 on the day of the request: the day lies
    in the window from [today - 6] to [today], and [finding_count] is 0. *)
Theorem trailing_week_misses_today :
  let created := Finding.created (sample_finding 1 (Some "High") sample_today 36000000000) in
  date_le (sub_timedelta_days sample_today 6) (date_of created)
  ∧ date_le (date_of created) sample_today
  ∧ (trailing_week_counts all_findings sample_today db_created_today).1 = (0, 0, 0).
Proof. vm_compute. repeat split; discriminate. Qed.
(** Under valid months, two findings have the same key exactly when they
    were created in the same month of the same year. *)
Lemma finding_month_key_eq f g :
  1 ≤ created_month f ≤ 12 → 1 ≤ created_month g ≤ 12 →
  finding_month_key g = finding_month_key f
  ↔ created_year g = created_year f ∧ created_month g = created_month f.
Proof.
  intros Hf Hg. unfold finding_month_key. split.
  - by apply month_key_inj.
  - by intros [-> ->].
Qed.

Lemma in_window_elem today fs f :
  f ∈ in_window today fs
  ↔ date_le (sub_relativedelta_months today 6) (date_of (Finding.created f)) ∧ f ∈ fs.
Proof. unfold in_window. by rewrite list_elem_of_filter. Qed.

Lemma y_stats_of key n : y (stats_of key n) = key.
Proof. reflexivity. Qed.

(** C2, as the code has it: the six counters of a row sum to the number of
    findings with a severity that is not NULL, created in the month of the
    row and inside the window. *)
Theorem by_month_row_sum (findings : QuerySet Finding.t) today db row :
  (∀ f, f ∈ findings db → valid_date (date_of (Finding.created f))) →
  row ∈ (get_severities_by_month findings today db).1 →
  ∃ f0, f0 ∈ in_window today (findings db)
    ∧ y row = month_key (created_year f0) (created_month f0)
    ∧ sum_values (counts row)
      = how_many (λ f, (created_year f = created_year f0
                        ∧ created_month f = created_month f0)
                       ∧ is_Some (Finding.severity f))
          (in_window today (findings db)).
Proof.
  intros Hvalid (f0 & Hf0 & ->)%by_month_elem. exists f0.
  split; [done|]. split; [done|].
  rewrite sum_values_stats_of, slot_count_sum.
  apply how_many_ext. intros f Hf.
  apply in_window_elem in Hf0 as [_ Hf0]. apply in_window_elem in Hf as [_ Hf].
  rewrite finding_month_key_eq; [done|apply (Hvalid f0 Hf0)|apply (Hvalid f Hf)].
Qed.

Lemma db_mixed_valid f :
  f ∈ all_findings db_mixed → valid_date (date_of (Finding.created f)).
Proof.
  intros Hf. unfold all_findings, db_mixed in Hf. cbn [Finding_objects] in Hf.
  repeat (apply elem_of_cons in Hf as [->|Hf]; [vm_compute; intuition discriminate|]).
  by apply not_elem_of_nil in Hf.
Defined.

Lemma by_month_row_sum_witness :
  ∃ f0, f0 ∈ in_window sample_today (all_findings db_mixed)
    ∧ y (stats_of "2022-06" (λ s, if decide (s = None) then 1
                                   else if decide (s = Some "a") then 1 else 0))
      = month_key (created_year f0) (created_month f0)
    ∧ sum_values (counts (stats_of "2022-06"
                            (λ s, if decide (s = None) then 1
                                  else if decide (s = Some "a") then 1 else 0)))
      = how_many (λ f, (created_year f = created_year f0
                        ∧ created_month f = created_month f0)
                       ∧ is_Some (Finding.severity f))
          (in_window sample_today (all_findings db_mixed)).
Proof.
  apply (by_month_row_sum all_findings sample_today db_mixed).
  - exact db_mixed_valid.
  - vm_compute. right. left.
Defined.

(** C2 as stated fails: the month of June 2022 holds one finding in the
    window, and the counters of its row sum to 0. *)
Lemma by_month_row_sum_counterexample :
  ∃ row, (get_severities_by_month all_findings sample_today db_null_severity).1 = [row]
    ∧ y row = month_key 2022 6
    ∧ sum_values (counts row) = 0
    ∧ how_many (λ f, created_year f = 2022 ∧ created_month f = 6)
        (in_window sample_today (all_findings db_null_severity)) = 1.
Proof. eexists. vm_compute. repeat split. Qed.
(** Keys that are month keys of months with a property come from a list of
    such months. *)
Lemma keys_of_months (P : Z * Z → Prop) (ks : list string) :
  Forall (λ k, ∃ m, P m ∧ k = month_key m.1 m.2) ks →
  ∃ months, ks = (λ m, month_key m.1 m.2) <$> months ∧ Forall P months.
Proof.
  induction 1 as [|k ks (m & Hm & ->) _ (months & -> & Hall)].
  - by exists [].
  - exists (m :: months). split; [done|]. by constructor.
Qed.

Lemma months_ascend (months : list (Z * Z)) :
  Forall (λ m, 1000 ≤ m.1 ≤ 9999 ∧ 1 ≤ m.2 ≤ 12) months →
  StronglySorted str_lt ((λ m, month_key m.1 m.2) <$> months) →
  StronglySorted month_lt months.
Proof.
  induction 1 as [|[y1 m1] months [Hy1 Hm1] Hall IH]; intros Hs; [constructor|].
  rewrite fmap_cons in Hs. apply StronglySorted_inv in Hs as [Hs Hhd].
  constructor; [by apply IH|].
  rewrite Forall_fmap in Hhd. rewrite Forall_forall in Hhd, Hall |- *.
  intros [y2 m2] Hin. destruct (Hall _ Hin) as [Hy2 Hm2].
  apply month_key_lt_iff; [done..|]. by apply (Hhd _ Hin).
Qed.

Lemma StronglySorted_str_lt_NoDup (l : list string) :
  StronglySorted str_lt l → NoDup l.
Proof.
  induction 1 as [|s l _ IH Hall]; constructor; [|done].
  intros Hin. rewrite Forall_forall in Hall. by apply Hall, str_lt_irrefl in Hin.
Qed.

(** C3, as the code has it: the keys of the rows ascend strictly, so no key
    occurs twice; and when the years of the findings in the window have four
    digits, the rows are those of a list of months in calendar order, each
    the month of such a finding. *)
Theorem by_month_sorted (findings : QuerySet Finding.t) today db :
  StronglySorted str_lt (y <$> (get_severities_by_month findings today db).1)
  ∧ NoDup (y <$> (get_severities_by_month findings today db).1)
  ∧ ((∀ f, f ∈ in_window today (findings db) →
           1000 ≤ created_year f ≤ 9999 ∧ 1 ≤ created_month f ≤ 12) →
     ∃ months : list (Z * Z),
       y <$> (get_severities_by_month findings today db).1
       = (λ m, month_key m.1 m.2) <$> months
       ∧ StronglySorted month_lt months
       ∧ Forall (λ m, ∃ f, f ∈ in_window today (findings db)
                           ∧ m = (created_year f, created_month f)) months).
Proof.
  pose proof (by_month_keys_ascend findings today db) as Hs.
  split; [done|]. split; [by apply StronglySorted_str_lt_NoDup|].
  intros Hdigits.
  destruct (keys_of_months
    (λ m, ∃ f, f ∈ in_window today (findings db)
               ∧ m = (created_year f, created_month f))
    (y <$> (get_severities_by_month findings today db).1)) as (months & Hk & Hm).
  { apply Forall_fmap, Forall_forall. intros row (f & Hf & ->)%by_month_elem.
    exists (created_year f, created_month f). split; [by exists f | done]. }
  exists months. split; [done|]. split; [|done].
  apply months_ascend; [|by rewrite <-Hk].
  eapply Forall_impl; [exact Hm|]. intros m (f & Hf & ->). by apply Hdigits.
Qed.

Lemma by_month_sorted_witness :
  ∃ months : list (Z * Z),
    y <$> (get_severities_by_month all_findings sample_today db_mixed).1
    = (λ m, month_key m.1 m.2) <$> months
    ∧ StronglySorted month_lt months
    ∧ Forall (λ m, ∃ f, f ∈ in_window sample_today (all_findings db_mixed)
                        ∧ m = (created_year f, created_month f)) months.
Proof.
  apply (by_month_sorted all_findings sample_today db_mixed).
  intros f Hf. vm_compute in Hf.
  repeat (apply elem_of_cons in Hf as [->|Hf]; [vm_compute; intuition discriminate|]).
  by apply not_elem_of_nil in Hf.
Defined.

(** C3 as stated fails: the row of January 1000 comes before the row of
    December 999, against the order of the calendar. *)
Lemma by_month_order_counterexample :
  y <$> (get_severities_by_month all_findings (mk_date 1000 1 15) db_year_1000).1
  = [month_key 1000 1; month_key 999 12]
  ∧ month_lt (999, 12) (1000, 1).
Proof. split; [by vm_compute | left; cbn; lia]. Qed.
(** The result depends on the findings in the window only. *)
Lemma by_month_window_only (findings findings' : QuerySet Finding.t) today db :
  in_window today (findings' db) = in_window today (findings db) →
  (get_severities_by_month findings' today db).1
  = (get_severities_by_month findings today db).1.
Proof. intros Heq. rewrite !get_severities_by_month_unfold. by rewrite Heq. Qed.

(** C5: the monthly table counts findings created on or after
    [today - 6 months] only.  Every row is the row of such a finding, with
    counters over such findings; a finding created before that day leaves the
    table as it is without it; and a finding created seven months before
    today is such a finding. *)
Theorem by_month_counts_window_only (findings : QuerySet Finding.t) today db f7 :
  1 ≤ month today ≤ 12 →
  date_of (Finding.created f7) = sub_relativedelta_months today 7 →
  (∀ row, row ∈ (get_severities_by_month findings today db).1 →
     ∃ f, (f ∈ findings db
           ∧ date_le (sub_relativedelta_months today 6) (date_of (Finding.created f)))
        ∧ row = stats_of (finding_month_key f)
                  (slot_count
                     (filter (λ g, date_le (sub_relativedelta_months today 6)
                                     (date_of (Finding.created g))) (findings db))
                     (finding_month_key f)))
  ∧ (∀ f, date_lt (date_of (Finding.created f)) (sub_relativedelta_months today 6) →
       (get_severities_by_month (λ d, f :: findings d) today db).1
       = (get_severities_by_month findings today db).1)
  ∧ date_lt (date_of (Finding.created f7)) (sub_relativedelta_months today 6)
  ∧ (get_severities_by_month (λ d, f7 :: findings d) today db).1
    = (get_severities_by_month findings today db).1.
Proof.
  intros Hmo H7.
  assert (∀ f, date_lt (date_of (Finding.created f)) (sub_relativedelta_months today 6) →
            (get_severities_by_month (λ d, f :: findings d) today db).1
            = (get_severities_by_month findings today db).1) as Hout.
  { intros f Hlt. apply by_month_window_only. unfold in_window.
    apply filter_cons_False. by apply date_lt_not_le. }
  assert (date_lt (date_of (Finding.created f7)) (sub_relativedelta_months today 6))
    as Hlt7 by (rewrite H7; by apply seven_months_before_window).
  split; [|by auto].
  intros row (f & Hf & ->)%by_month_elem. exists f. split; [|done].
  apply in_window_elem in Hf. tauto.
Qed.

Lemma by_month_counts_window_only_witness :
  (get_severities_by_month
     (λ d, sample_finding 9 (Some "High") (mk_date 2021 11 15) 0 :: all_findings d)
     sample_today db_mixed).1
  = (get_severities_by_month all_findings sample_today db_mixed).1.
Proof.
  apply (by_month_counts_window_only all_findings sample_today db_mixed
           (sample_finding 9 (Some "High") (mk_date 2021 11 15) 0)).
  - vm_compute. intuition discriminate.
  - reflexivity.
Defined.

(** C8: a month has a row exactly when a finding in the window was created
    in it; a month of the window without finding has none. *)
Theorem by_month_row_iff (findings : QuerySet Finding.t) today db yr mo :
  1 ≤ mo ≤ 12 →
  (∀ f, f ∈ findings db → valid_date (date_of (Finding.created f))) →
  (∃ row, row ∈ (get_severities_by_month findings today db).1
          ∧ y row = month_key yr mo)
  ↔ (∃ f, f ∈ in_window today (findings db)
          ∧ created_year f = yr ∧ created_month f = mo).
Proof.
  intros Hmo Hvalid. split.
  - intros (row & (f & Hf & ->)%by_month_elem & Hk). exists f. split; [done|].
    rewrite y_stats_of in Hk. apply month_key_inj in Hk; [done| |done].
    apply in_window_elem in Hf as [_ Hf]. apply (Hvalid f Hf).
  - intros (f & Hf & <- & <-). eexists. split.
    + apply by_month_elem. by exists f.
    + done.
Qed.

Lemma by_month_row_iff_witness :
  (∃ row, row ∈ (get_severities_by_month all_findings sample_today db_mixed).1
          ∧ y row = month_key 2022 4)
  ↔ (∃ f, f ∈ in_window sample_today (all_findings db_mixed)
          ∧ created_year f = 2022 ∧ created_month f = 4).
Proof.
  apply (by_month_row_iff all_findings sample_today db_mixed 2022 4).
  - lia.
  - exact db_mixed_valid.
Defined.
(** C6: a finding whose severity is a label outside the five known ones is
    counted in the totals under its label; its month has a row, in which the
    slot [None] counts the findings of the month that [SEVERITY_MAP.get]
    sends to [None], this finding among them, while the slots ['a'] to ['e']
    count findings that it sends to them, this finding not among them. *)
Theorem unknown_severity_buckets (findings : QuerySet Finding.t) today db f label :
  f ∈ findings db →
  Finding.severity f = Some label →
  label ∉ ["Critical"; "High"; "Medium"; "Low"; "Info"] →
  (dict_items (get_severities_all findings db).1 !! Some label
   = Some (how_many (λ g, Finding.severity g = Some label) (findings db))
   ∧ 1 ≤ how_many (λ g, Finding.severity g = Some label) (findings db))
  ∧ SEVERITY_MAP_get (Finding.severity f) = None
  ∧ (f ∈ in_window today (findings db) →
     ∃ row, row ∈ (get_severities_by_month findings today db).1
       ∧ y row = finding_month_key f
       ∧ (∀ slot, slot ∈ [Some "a"; Some "b"; Some "c"; Some "d"; Some "e"; None] →
            counts row !! slot
            = Some (how_many
                      (λ g, (finding_month_key g = finding_month_key f
                             ∧ SEVERITY_MAP_get (Finding.severity g) = slot)
                            ∧ is_Some (Finding.severity g))
                      (in_window today (findings db))))
       ∧ 1 ≤ how_many
                (λ g, (finding_month_key g = finding_month_key f
                       ∧ SEVERITY_MAP_get (Finding.severity g) = None)
                      ∧ is_Some (Finding.severity g))
                (in_window today (findings db))).
Proof.
  intros Hf Hsev Hlabel.
  assert (SEVERITY_MAP_get (Finding.severity f) = None) as Hslot
    by (rewrite Hsev; by apply SEVERITY_MAP_get_unknown).
  split; [split|split; [done|]].
  - rewrite get_severities_all_lookup, decide_True.
    + f_equal. apply how_many_ext. intros g _. split; [tauto|].
      intros Hg. split; [by rewrite Hg | done].
    + apply list_elem_of_fmap. by exists f.
  - by apply (how_many_pos _ _ f).
  - intros Hw. eexists. split; [apply by_month_elem; by exists f|].
    split; [done|]. split.
    + intros slot Hs. by apply counts_stats_of_lookup.
    + apply (how_many_pos _ _ f); [done|]. rewrite Hsev. split; [|by eexists].
      split; [done|]. by rewrite <-Hsev.
Qed.

Lemma unknown_severity_buckets_witness :
  SEVERITY_MAP_get
    (Finding.severity (sample_finding 2 (Some "Urgent") (mk_date 2022 6 2) 0))
  = None.
Proof.
  apply (unknown_severity_buckets all_findings sample_today db_mixed
           (sample_finding 2 (Some "Urgent") (mk_date 2022 6 2) 0) "Urgent").
  - vm_compute. right. left.
  - reflexivity.
  - intros Hin. repeat (apply elem_of_cons in Hin as [Hin|Hin]; [discriminate|]).
    by apply not_elem_of_nil in Hin.
Defined.

Lemma slot_count_non_null fs key slot :
  slot_count (filter (λ g, is_Some (Finding.severity g)) fs) key slot
  = slot_count fs key slot.
Proof.
  unfold slot_count. rewrite how_many_filter. apply how_many_ext. tauto.
Qed.

Lemma in_window_non_null today fs :
  in_window today (filter (λ g, is_Some (Finding.severity g)) fs)
  = filter (λ g, is_Some (Finding.severity g)) (in_window today fs).
Proof.
  unfold in_window. rewrite !list_filter_filter.
  induction fs as [|g fs IH]; [done|].
  rewrite !filter_cons, IH.
  destruct (decide (created__date__gte _ g ∧ _)), (decide (is_Some _ ∧ _));
    tauto || done.
Qed.

(** C10: findings without severity count for nothing.  In the totals their
    group is the entry [None: 0], and every label has the entry it has
    without them.  In the monthly table every row of the table without them
    is a row of the table with them, and any further row has all its
    counters at 0: the row of a month whose findings all lack a severity,
    which such a month does get. *)
Theorem null_severity_counts_nothing (findings : QuerySet Finding.t) today db :
  let named : QuerySet Finding.t :=
    qs_filter (λ g, is_Some (Finding.severity g)) findings in
  ((∃ f, f ∈ findings db ∧ Finding.severity f = None) →
     dict_items (get_severities_all findings db).1 !! None = Some 0)
  ∧ (∀ label : string,
       dict_items (get_severities_all findings db).1 !! Some label
       = dict_items (get_severities_all named db).1 !! Some label)
  ∧ (∀ row, row ∈ (get_severities_by_month named today db).1 →
            row ∈ (get_severities_by_month findings today db).1)
  ∧ (∀ row, row ∈ (get_severities_by_month findings today db).1 →
            row ∈ (get_severities_by_month named today db).1
            ∨ ∃ f, f ∈ in_window today (findings db)
                   ∧ (∀ g, g ∈ in_window today (findings db) →
                           finding_month_key g = finding_month_key f →
                           Finding.severity g = None)
                   ∧ row = stats_of (finding_month_key f) (λ _, 0))
  ∧ (∀ f, f ∈ in_window today (findings db) →
          (∀ g, g ∈ in_window today (findings db) →
                finding_month_key g = finding_month_key f →
                Finding.severity g = None) →
          stats_of (finding_month_key f) (λ _, 0)
          ∈ (get_severities_by_month findings today db).1).
Proof.
  intros named.
  assert (∀ d, named d = filter (λ g, is_Some (Finding.severity g)) (findings d))
    as Hnamed by done.
  repeat split.
  - intros (f & Hf & Hsev). rewrite get_severities_all_lookup, decide_True.
    + f_equal. apply how_many_zero. intros g _ [[x Hx] Hg]. congruence.
    + apply list_elem_of_fmap. exists f. by rewrite Hsev.
  - intros label. rewrite !get_severities_all_lookup, Hnamed.
    rewrite how_many_filter.
    destruct (decide (Some label ∈ Finding.severity <$> findings db)) as [Hin|Hnin].
    + rewrite decide_True.
      * f_equal. apply how_many_ext. tauto.
      * apply list_elem_of_fmap in Hin as (f & Hl & Hf).
        apply list_elem_of_fmap. exists f. split; [done|].
        apply list_elem_of_filter. split; [by rewrite <-Hl | done].
    + rewrite decide_False; [done|].
      intros (f & Hl & [_ Hf]%list_elem_of_filter)%list_elem_of_fmap.
      apply Hnin, list_elem_of_fmap. by exists f.
  - intros row (f & Hf & ->)%by_month_elem. apply by_month_elem.
    rewrite Hnamed, in_window_non_null in Hf |- *.
    apply list_elem_of_filter in Hf as [_ Hf]. exists f. split; [done|].
    apply stats_of_ext. intros s. apply slot_count_non_null.
  - intros row (f & Hf & ->)%by_month_elem.
    set (W := in_window today (findings db)) in *.
    destruct (decide (Exists (λ g, finding_month_key g = finding_month_key f
                                   ∧ is_Some (Finding.severity g)) W))
      as [Hex|Hnex].
    + left. apply Exists_exists in Hex as (g & Hg & Hk & Hs).
      apply by_month_elem. exists g. rewrite Hnamed, in_window_non_null.
      fold W. split; [by apply list_elem_of_filter|].
      rewrite Hk. apply stats_of_ext. intros s. by rewrite slot_count_non_null.
    + right. exists f. split; [done|].
      assert (∀ g, g ∈ W → finding_month_key g = finding_month_key f →
                   Finding.severity g = None) as Hnull.
      { intros g Hg Hk. destruct (Finding.severity g) as [l|] eqn:Hl; [|done].
        destruct Hnex. apply Exists_exists. exists g. rewrite Hl. by eauto. }
      split; [done|]. apply stats_of_ext. intros s.
      apply how_many_zero. intros g Hg [[Hk _] [l Hl]].
      rewrite (Hnull g Hg Hk) in Hl. done.
  - intros f Hf Hnull. apply by_month_elem. exists f. split; [done|].
    apply stats_of_ext. intros s. symmetry.
    apply how_many_zero. intros g Hg [[Hk _] [l Hl]].
    rewrite (Hnull g Hg Hk) in Hl. done.
Qed.

Lemma null_severity_counts_nothing_witness :
  dict_items (get_severities_all all_findings db_mixed).1 !! None = Some 0.
Proof.
  apply (null_severity_counts_nothing all_findings sample_today db_mixed).
  exists (sample_finding 3 None (mk_date 2022 5 20) 0). split; [|done].
  vm_compute. do 2 right. left.
Defined.
(** ** Two facts about the model *)

(** The database may return the groups in any order: the dictionary that the
    loop builds is the same. *)
Lemma reshape_Permutation (gs gs' : list month_row) :
  gs ≡ₚ gs' → foldl reshape_step ∅ gs = foldl reshape_step ∅ gs'.
Proof.
  intros Hp. apply map_eq. intros key. rewrite !reshape_lookup.
  assert (key ∈ row_key <$> gs ↔ key ∈ row_key <$> gs') as Hk by (by rewrite Hp).
  destruct (decide (key ∈ row_key <$> gs)) as [Hin|Hnin].
  - rewrite decide_True by (by apply Hk). f_equal. apply stats_of_ext.
    intros s. unfold slot_sum. apply Zsum_Permutation. by rewrite Hp.
  - rewrite decide_False; [done|]. by rewrite <-Hk.
Qed.

Lemma date_compare_eq d1 d2 : date_compare d1 d2 = Eq ↔ d1 = d2.
Proof.
  unfold date_compare. split.
  - destruct d1 as [y1 m1 a1], d2 as [y2 m2 a2]. cbn [year month day].
    destruct (Z.compare_spec y1 y2); try done.
    destruct (Z.compare_spec m1 m2); try done.
    intros ->%Z.compare_eq_iff. by subst.
  - intros ->. by rewrite !Z.compare_refl.
Qed.

(** What the filters of the trailing week select: a time on a day of the
    window before its last day, or the first instant of its last day. *)
Lemma datetime_between_spec lo hi t :
  0 ≤ time_of t →
  datetime_between lo hi t
  ↔ date_le lo (date_of t)
    ∧ (date_lt (date_of t) hi ∨ (date_of t = hi ∧ time_of t = 0)).
Proof.
  intros Ht. unfold datetime_between, datetime_le, datetime_compare, date_le, date_lt.
  cbn [DateTimeField_to_python date_of time_of].
  destruct (date_compare lo (date_of t)) eqn:Hlo,
           (date_compare (date_of t) hi) eqn:Hhi;
    try apply date_compare_eq in Hhi;
    rewrite ?Z.compare_gt_iff; split; intros [H1 H2]; split;
    try done; try lia.
  - right. split; [done|lia].
  - destruct H2 as [?|[_ ->]]; [done|lia].
  - by left.
  - destruct H2 as [?|[? _]]; [done|]. subst hi.
    rewrite (proj2 (date_compare_eq _ _)) in Hhi; done.
  - right. split; [done|lia].
  - destruct H2 as [?|[_ ->]]; [done|lia].
  - by left.
  - destruct H2 as [?|[? _]]; [done|]. subst hi.
    rewrite (proj2 (date_compare_eq _ _)) in Hhi; done.
Qed.

(** The order of the groups does not matter for the totals either. *)
Lemma dict_of_items_keyed_Permutation {K V} `{Countable K} (g : K → V)
    (ks ks' : list K) :
  ks ≡ₚ ks' →
  dict_of_items ((λ k, (k, g k)) <$> ks) = dict_of_items ((λ k, (k, g k)) <$> ks').
Proof.
  intros Hp. apply map_eq. intros k. rewrite !dict_of_items_keyed.
  destruct (decide (k ∈ ks)) as [Hin|Hnin].
  - rewrite decide_True; [done|]. by rewrite <-Hp.
  - rewrite decide_False; [done|]. by rewrite <-Hp.
Qed.

(** ** [dashboard] *)




(** ** Further properties of the view *)

Lemma how_many_le_length {A} (P : A → Prop) `{!∀ x, Decision (P x)} l :
  how_many P l ≤ Z.of_nat (length l).
Proof. unfold how_many. pose proof (length_filter P l). lia. Qed.





(** X3: on an empty collection the totals hold no entry, so that every
    severity reads 0; the monthly table is the empty list; and the three
    counts of the week are 0. *)
Theorem empty_collection (findings : QuerySet Finding.t) today db :
  findings db = [] →
  dict_items (get_severities_all findings db).1 = ∅
  ∧ (∀ label, ∃ d, defaultdict_getitem (get_severities_all findings db).1 label
                   = Some (0, d))
  ∧ (get_severities_by_month findings today db).1 = []
  ∧ (trailing_week_counts findings today db).1 = (0, 0, 0).
Proof.
  intros Hempty.
  assert (dict_items (get_severities_all findings db).1 = ∅) as Hd.
  { apply map_eq. intros k. rewrite get_severities_all_lookup, Hempty.
    rewrite decide_False by apply not_elem_of_nil. by rewrite lookup_empty. }
  split; [done|]. split; [|split].
  - intros label. unfold defaultdict_getitem. rewrite Hd, lookup_empty.
    by eexists.
  - rewrite get_severities_by_month_unfold. cbn [fst]. unfold in_window.
    by rewrite Hempty.
  - unfold trailing_week_counts, count, qs_filter, mbind, DB_bind, mret, DB_ret.
    cbn [fst]. by rewrite Hempty.
Qed.

Lemma empty_collection_witness :
  (get_severities_by_month (λ _, []) sample_today db_mixed).1 = [].
Proof. by apply (empty_collection (λ _, []) sample_today db_mixed). Defined.

(** X4: every row of the monthly table has the six counters ['a'] to ['e']
    and [None] and no other, none of them negative, and at least one finding
    of the window behind it; the update [month_stats[...] += count] finds its
    key in every row. *)
Theorem by_month_row_shape (findings : QuerySet Finding.t) today db row :
  row ∈ (get_severities_by_month findings today db).1 →
  (∀ slot, is_Some (counts row !! slot)
           ↔ slot ∈ [Some "a"; Some "b"; Some "c"; Some "d"; Some "e"; None])
  ∧ (∀ slot n, counts row !! slot = Some n → 0 ≤ n)
  ∧ (∀ sev, is_Some (counts row !! SEVERITY_MAP_get sev))
  ∧ ∃ f, f ∈ in_window today (findings db) ∧ finding_month_key f = y row.
Proof.
  intros (f & Hf & ->)%by_month_elem.
  assert (∀ slot, is_Some (counts (stats_of (finding_month_key f)
             (slot_count (in_window today (findings db)) (finding_month_key f)))
             !! slot)
           ↔ slot ∈ [Some "a"; Some "b"; Some "c"; Some "d"; Some "e"; None])
    as Hdom.
  { intros slot. split.
    - unfold stats_of. cbn [counts]. rewrite !lookup_insert, lookup_empty.
      repeat (case_decide; [subst slot; set_solver|]). by intros [? ?].
    - intros Hs. rewrite counts_stats_of_lookup by done. by eexists. }
  split; [done|]. split; [|split].
  - intros slot n Hn. assert (is_Some (counts (stats_of (finding_month_key f)
      (slot_count (in_window today (findings db)) (finding_month_key f))) !! slot))
      as Hs by (by eexists).
    apply Hdom in Hs. rewrite counts_stats_of_lookup in Hn by done.
    injection Hn as <-. apply how_many_nonneg.
  - intros sev. apply Hdom, SEVERITY_MAP_get_cases.
  - by exists f.
Qed.

Lemma by_month_row_shape_witness :
  ∃ f, f ∈ in_window sample_today (all_findings db_mixed)
       ∧ finding_month_key f = y (stats_of "2022-05" (λ _, 0)).
Proof.
  apply (by_month_row_shape all_findings sample_today db_mixed).
  vm_compute. left.
Defined.
Lemma how_many_Permutation {A} (P : A → Prop) `{!∀ x, Decision (P x)} l1 l2 :
  l1 ≡ₚ l2 → how_many P l1 = how_many P l2.
Proof. intros Hp. unfold how_many. by rewrite Hp. Qed.

Lemma by_month_NoDup (findings : QuerySet Finding.t) today db :
  NoDup (get_severities_by_month findings today db).1.
Proof.
  apply (NoDup_fmap_1 y), StronglySorted_str_lt_NoDup, by_month_keys_ascend.
Qed.

(** Two lists of rows with the same members, each ascending in its keys, are
    the same list. *)
Lemma rows_sorted_unique (l1 l2 : list month_stats) :
  StronglySorted str_lt (y <$> l1) → StronglySorted str_lt (y <$> l2) →
  (∀ row, row ∈ l1 ↔ row ∈ l2) → l1 = l2.
Proof.
  intros Hs1 Hs2 Hmem.
  assert (∀ l, StronglySorted str_lt (y <$> l)
               → StronglySorted (λ r1 r2, str_lt (y r1) (y r2)) l) as Hrows.
  { induction l as [|r l IH]; intros Hs; [constructor|].
    rewrite fmap_cons in Hs. apply StronglySorted_inv in Hs as [Hs Hhd].
    constructor; [by apply IH|]. by rewrite Forall_fmap in Hhd. }
  apply (StronglySorted_unique_strong (λ r1 r2, str_lt (y r1) (y r2))).
  - intros r1 r2 _ _ H12 H21. destruct (str_lt_irrefl (y r1)).
    by eapply str_lt_trans.
  - by apply Hrows.
  - by apply Hrows.
  - apply NoDup_Permutation; [| |done].
    + apply (NoDup_fmap_1 y). by apply StronglySorted_str_lt_NoDup.
    + apply (NoDup_fmap_1 y). by apply StronglySorted_str_lt_NoDup.
Qed.

(** X5: [.order_by()] leaves the order of the grouped rows to the database.
    Whatever order they arrive in, the loop and the final sort produce the
    same list of rows. *)
Theorem reshape_order_independent (gs gs' : list month_row) :
  gs ≡ₚ gs' →
  (sorted_items (foldl reshape_step ∅ gs)).*2
  = (sorted_items (foldl reshape_step ∅ gs')).*2.
Proof. intros Hp. by rewrite (reshape_Permutation gs gs' Hp). Qed.

Lemma reshape_order_independent_witness :
  (sorted_items (foldl reshape_step ∅
     [((2022, 6, Some "High"), 2); ((2022, 5, None), 0);
      ((2022, 6, Some "Odd"), 1)])).*2
  = (sorted_items (foldl reshape_step ∅
     [((2022, 6, Some "Odd"), 1); ((2022, 6, Some "High"), 2);
      ((2022, 5, None), 0)])).*2.
Proof.
  apply reshape_order_independent.
  symmetry. apply (Permutation_cons_append [_; _] _).
Defined.

(** X6: neither aggregation depends on the order of the findings in the
    collection: two query sets that select the same findings in different
    orders give the same totals and the same monthly table. *)
Theorem aggregations_order_independent (findings findings' : QuerySet Finding.t)
    today db :
  findings db ≡ₚ findings' db →
  dict_items (get_severities_all findings db).1
  = dict_items (get_severities_all findings' db).1
  ∧ (get_severities_by_month findings today db).1
    = (get_severities_by_month findings' today db).1.
Proof.
  intros Hp. split.
  - apply map_eq. intros k. rewrite !get_severities_all_lookup.
    rewrite (how_many_Permutation _ _ _ Hp).
    destruct (decide (k ∈ Finding.severity <$> findings db)) as [Hin|Hnin].
    + rewrite decide_True; [done|]. by rewrite <-Hp.
    + rewrite decide_False; [done|]. by rewrite <-Hp.
  - assert (in_window today (findings db) ≡ₚ in_window today (findings' db)) as Hw.
    { unfold in_window. by rewrite Hp. }
    apply rows_sorted_unique; [apply by_month_keys_ascend..|].
    intros row. rewrite !by_month_elem. split.
    + intros (f & Hf & ->). exists f. split; [by rewrite <-Hw|].
      apply stats_of_ext. intros s. unfold slot_count.
      by apply how_many_Permutation.
    + intros (f & Hf & ->). exists f. split; [by rewrite Hw|].
      apply stats_of_ext. intros s. unfold slot_count.
      symmetry. by apply how_many_Permutation.
Qed.

Lemma aggregations_order_independent_witness :
  (get_severities_by_month all_findings sample_today db_mixed).1
  = (get_severities_by_month (λ d, reverse (all_findings d)) sample_today db_mixed).1.
Proof.
  apply (aggregations_order_independent all_findings (λ d, reverse (all_findings d))
           sample_today db_mixed).
  symmetry. apply reverse_Permutation.
Defined.

Lemma by_month_one_row_per_month_keys (findings : QuerySet Finding.t) today db :
  y <$> (get_severities_by_month findings today db).1
  ≡ₚ remove_dups (finding_month_key <$> in_window today (findings db))
  ∧ length (get_severities_by_month findings today db).1
    = length (remove_dups (finding_month_key <$> in_window today (findings db))).
Proof.
  assert (y <$> (get_severities_by_month findings today db).1
          ≡ₚ remove_dups (finding_month_key <$> in_window today (findings db)))
    as Hp.
  { apply NoDup_Permutation.
    - apply StronglySorted_str_lt_NoDup, by_month_keys_ascend.
    - apply NoDup_remove_dups.
    - intros key. rewrite elem_of_remove_dups, !list_elem_of_fmap. split.
      + intros (row & -> & (f & Hf & ->)%by_month_elem). by exists f.
      + intros (f & -> & Hf). eexists. split; [|apply by_month_elem; by exists f].
        done. }
  split; [done|]. rewrite <-Hp. by rewrite length_fmap.
Qed.

(** X7: the table has one row for each distinct month key among the findings
    in the window: the keys of its rows are those keys, each once. *)
Theorem by_month_one_row_per_month (findings : QuerySet Finding.t) today db :
  y <$> (get_severities_by_month findings today db).1
  ≡ₚ remove_dups (finding_month_key <$> in_window today (findings db))
  ∧ length (get_severities_by_month findings today db).1
    = length (remove_dups (finding_month_key <$> in_window today (findings db))).
Proof. apply by_month_one_row_per_month_keys. Qed.
Lemma date_le_spec d1 d2 :
  date_le d1 d2
  ↔ year d1 < year d2
    ∨ (year d1 = year d2
       ∧ (month d1 < month d2 ∨ (month d1 = month d2 ∧ day d1 ≤ day d2))).
Proof.
  unfold date_le, date_compare.
  destruct (Z.compare_spec (year d1) (year d2));
    destruct (Z.compare_spec (month d1) (month d2));
    destruct (Z.compare_spec (day d1) (day d2));
    split; intros; try done; try lia.
Qed.

Lemma date_lt_spec d1 d2 :
  date_lt d1 d2
  ↔ year d1 < year d2
    ∨ (year d1 = year d2
       ∧ (month d1 < month d2 ∨ (month d1 = month d2 ∧ day d1 < day d2))).
Proof.
  unfold date_lt, date_compare.
  destruct (Z.compare_spec (year d1) (year d2));
    destruct (Z.compare_spec (month d1) (month d2));
    destruct (Z.compare_spec (day d1) (day d2));
    split; intros; try done; try lia.
Qed.

Lemma days_in_month_bounds yr mo : 1 ≤ mo ≤ 12 → 28 ≤ days_in_month yr mo ≤ 31.
Proof.
  intros Hmo. unfold days_in_month.
  assert (mo = 1 ∨ mo = 2 ∨ mo = 3 ∨ mo = 4 ∨ mo = 5 ∨ mo = 6 ∨ mo = 7 ∨ mo = 8
          ∨ mo = 9 ∨ mo = 10 ∨ mo = 11 ∨ mo = 12) as Hc by lia.
  repeat (destruct Hc as [->|Hc]; [cbn; destruct (isleap yr); cbn; lia|]).
  subst mo. cbn. lia.
Qed.

(** The start of the window of six months, in numbers. *)
Lemma window_start_spec today :
  1 ≤ month today ≤ 12 →
  12 * year (sub_relativedelta_months today 6) + month (sub_relativedelta_months today 6)
  = 12 * year today + month today - 6
  ∧ 1 ≤ month (sub_relativedelta_months today 6) ≤ 12
  ∧ day (sub_relativedelta_months today 6)
    = Z.min (days_in_month (year (sub_relativedelta_months today 6))
               (month (sub_relativedelta_months today 6))) (day today).
Proof.
  intros Hmo. unfold sub_relativedelta_months.
  repeat match goal with
         | |- context [?a <? ?b] => destruct (Z.ltb_spec a b)
         end; cbn [year month day]; lia.
Qed.

(** X8: [today - relativedelta(months=6)] is a date again whenever [today] is
    one that lies six months or more after 0001-01-01: it lies six calendar
    months back, on the same day of the month or, where that month is
    shorter, on its last day, and so before [today]. *)
Theorem window_start_valid today :
  valid_date today →
  2 ≤ year today ∨ 7 ≤ month today →
  valid_date (sub_relativedelta_months today 6)
  ∧ 12 * year (sub_relativedelta_months today 6)
    + month (sub_relativedelta_months today 6)
    = 12 * year today + month today - 6
  ∧ (day (sub_relativedelta_months today 6) = day today
     ∨ (day (sub_relativedelta_months today 6)
        = days_in_month (year (sub_relativedelta_months today 6))
            (month (sub_relativedelta_months today 6))
        ∧ day (sub_relativedelta_months today 6) < day today))
  ∧ date_lt (sub_relativedelta_months today 6) today.
Proof.
  intros (Hy & Hm & Hd) Hlate.
  destruct (window_start_spec today Hm) as (Hidx & Hcm & Hcd).
  pose proof (days_in_month_bounds (year (sub_relativedelta_months today 6))
                (month (sub_relativedelta_months today 6)) Hcm) as Hdim.
  repeat split; try lia.
  - apply date_lt_spec. lia.
Qed.

Lemma window_start_valid_witness :
  valid_date (sub_relativedelta_months (mk_date 2022 8 31) 6).
Proof.
  apply (window_start_valid (mk_date 2022 8 31)).
  - vm_compute. intuition discriminate.
  - left. cbn. lia.
Defined.

(** X9: the window has no end.  A finding dated on or after [today], in the
    future included, has a row in the monthly table. *)
Theorem by_month_includes_future (findings : QuerySet Finding.t) today db f :
  1 ≤ month today ≤ 12 →
  f ∈ findings db →
  date_le today (date_of (Finding.created f)) →
  ∃ row, row ∈ (get_severities_by_month findings today db).1
         ∧ y row = finding_month_key f.
Proof.
  intros Hm Hf Hle.
  exists (stats_of (finding_month_key f)
            (slot_count (in_window today (findings db)) (finding_month_key f))).
  split; [|done]. apply by_month_elem. exists f.
  split; [|done]. apply in_window_elem. split; [|done].
  destruct (window_start_spec today Hm) as (Hidx & Hcm & Hcd).
  apply date_le_spec in Hle. apply date_le_spec. lia.
Qed.

Lemma by_month_includes_future_witness :
  ∃ row, row ∈ (get_severities_by_month
                  (λ d, sample_finding 9 (Some "Low") (mk_date 2030 1 1) 0 :: all_findings d)
                  sample_today db_mixed).1
         ∧ y row = finding_month_key (sample_finding 9 (Some "Low") (mk_date 2030 1 1) 0).
Proof.
  apply (by_month_includes_future _ sample_today db_mixed).
  - cbn. lia.
  - left.
  - vm_compute. discriminate.
Defined.

(** X10: when no finding is dated after [today], the table has at most seven
    rows: the month of [today] and the six before it. *)
Theorem by_month_at_most_seven_rows (findings : QuerySet Finding.t) today db :
  1 ≤ month today ≤ 12 →
  (∀ f, f ∈ findings db →
        1 ≤ created_month f ≤ 12 ∧ date_le (date_of (Finding.created f)) today) →
  (length (get_severities_by_month findings today db).1 ≤ 7)%nat.
Proof.
  intros Hm Hfs.
  destruct (by_month_one_row_per_month_keys findings today db) as [Hp ->].
  destruct (window_start_spec today Hm) as (Hidx & Hcm & Hcd).
  set (months := (λ i, month_key ((i - 1) `div` 12) ((i - 1) `mod` 12 + 1))
                 <$> seqZ (12 * year today + month today - 6) 7).
  assert (length months = 7%nat) as <- by done.
  apply submseteq_length, NoDup_submseteq; [apply NoDup_remove_dups|].
  intros key (f & -> & [Hw Hf]%in_window_elem)%elem_of_remove_dups%list_elem_of_fmap.
  destruct (Hfs f Hf) as [Hfm Hle].
  apply date_le_spec in Hw, Hle. fold (created_year f) (created_month f) in Hw, Hle.
  apply list_elem_of_fmap. exists (12 * created_year f + created_month f).
  split.
  - unfold finding_month_key. f_equal.
    + apply Z.div_unique with (created_month f - 1); lia.
    + rewrite <-(Z.mod_unique_pos (12 * created_year f + created_month f - 1) 12
                   (created_year f) (created_month f - 1)); lia.
  - apply elem_of_seqZ. lia.
Qed.

Lemma by_month_at_most_seven_rows_witness :
  (length (get_severities_by_month all_findings sample_today db_mixed).1 ≤ 7)%nat.
Proof.
  apply by_month_at_most_seven_rows.
  - cbn. lia.
  - intros f Hf. vm_compute in Hf.
    repeat (apply elem_of_cons in Hf as [->|Hf];
            [vm_compute; intuition discriminate|]).
    by apply not_elem_of_nil in Hf.
Defined.
(** No two severities share a code of the chart. *)
Lemma SEVERITY_MAP_inj l1 l2 code :
  SEVERITY_MAP !! l1 = Some code → SEVERITY_MAP !! l2 = Some code → l1 = l2.
Proof.
  unfold SEVERITY_MAP. rewrite !lookup_insert, !lookup_empty.
  repeat case_decide; congruence.
Qed.

Lemma by_month_rows_Permutation (findings : QuerySet Finding.t) today db :
  (get_severities_by_month findings today db).1
  ≡ₚ (λ key, stats_of key (slot_count (in_window today (findings db)) key))
     <$> remove_dups (finding_month_key <$> in_window today (findings db)).
Proof.
  apply NoDup_Permutation.
  - apply by_month_NoDup.
  - apply NoDup_fmap_2_strong; [|apply NoDup_remove_dups].
    intros k1 k2 _ _ Heq. by apply (f_equal y) in Heq.
  - intros row. rewrite by_month_elem, list_elem_of_fmap. split.
    + intros (f & Hf & ->). eexists. split; [done|].
      apply elem_of_remove_dups, list_elem_of_fmap. by exists f.
    + intros (key & -> & (f & -> & Hf)%elem_of_remove_dups%list_elem_of_fmap).
      by exists f.
Qed.

(** Over all rows, a slot holds the findings of the window that
    [SEVERITY_MAP.get] sends to it. *)
Lemma by_month_slot_total (findings : QuerySet Finding.t) today db slot :
  slot ∈ [Some "a"; Some "b"; Some "c"; Some "d"; Some "e"; None] →
  Zsum ((λ row, default 0 (counts row !! slot))
        <$> (get_severities_by_month findings today db).1)
  = how_many (λ f, SEVERITY_MAP_get (Finding.severity f) = slot
                   ∧ is_Some (Finding.severity f))
      (in_window today (findings db)).
Proof.
  intros Hslot. set (W := in_window today (findings db)).
  rewrite (Zsum_Permutation _ _
    (fmap_Permutation _ _ _ (by_month_rows_Permutation findings today db))).
  fold W. rewrite <-list_fmap_compose.
  rewrite (Zsum_fmap_ext _ (λ key, if decide True then
     group_size finding_month_key
       (filter (λ f, SEVERITY_MAP_get (Finding.severity f) = slot) W) key else 0)).
  - rewrite (group_size_sum finding_month_key (λ _, True)).
    + rewrite how_many_filter. apply how_many_ext. tauto.
    + apply NoDup_remove_dups.
    + intros f [_ Hf]%list_elem_of_filter. by apply group_keys_complete.
  - intros key _. unfold compose. rewrite counts_stats_of_lookup by done.
    cbn [default].
    rewrite group_size_how_many, how_many_filter. unfold slot_count.
    apply how_many_ext. tauto.
Qed.

(** X11: the chart agrees with the totals.  For a severity of the map, its
    counters summed over all rows of the monthly table are the number of
    findings of that severity in the window, which is at most the total the
    dashboard shows for the severity. *)
Theorem chart_within_totals (findings : QuerySet Finding.t) today db label code :
  SEVERITY_MAP !! label = Some code →
  Zsum ((λ row, default 0 (counts row !! Some code))
        <$> (get_severities_by_month findings today db).1)
  = how_many (λ f, Finding.severity f = Some label) (in_window today (findings db))
  ∧ Zsum ((λ row, default 0 (counts row !! Some code))
          <$> (get_severities_by_month findings today db).1)
    ≤ default 0 (dict_items (get_severities_all findings db).1 !! Some label).
Proof.
  intros Hcode.
  assert (Zsum ((λ row, default 0 (counts row !! Some code))
                <$> (get_severities_by_month findings today db).1)
          = how_many (λ f, Finding.severity f = Some label)
              (in_window today (findings db))) as ->.
  { rewrite by_month_slot_total.
    - apply how_many_ext. intros f _. split.
      + intros [Hget [l Hl]]. rewrite Hl in Hget |- *. cbn in Hget.
        f_equal. by apply (SEVERITY_MAP_inj _ _ code).
      + intros ->. split; [done | by eexists].
    - rewrite <-Hcode. apply (SEVERITY_MAP_get_cases (Some label)). }
  split; [done|].
  rewrite get_severities_all_counts_non_null_entries.
  unfold in_window. rewrite how_many_filter.
  unfold how_many.
  pose proof (length_filter
    (λ f, created__date__gte (sub_relativedelta_months today 6) f)
    (filter (λ f, Finding.severity f = Some label) (findings db))) as Hlen.
  rewrite list_filter_filter in Hlen.
  rewrite (list_filter_iff _ (λ f, created__date__gte
             (sub_relativedelta_months today 6) f
             ∧ Finding.severity f = Some label)) by tauto.
  lia.
Qed.

Lemma chart_within_totals_witness :
  Zsum ((λ row, default 0 (counts row !! Some "b"))
        <$> (get_severities_by_month all_findings sample_today db_mixed).1)
  ≤ default 0 (dict_items (get_severities_all all_findings db_mixed).1 !! Some "High").
Proof.
  apply (chart_within_totals all_findings sample_today db_mixed "High" "b").
  reflexivity.
Defined.
Lemma trailing_week_counts_unfold (findings : QuerySet Finding.t) today db :
  (trailing_week_counts findings today db).1
  = (how_many (created_between (sub_timedelta_days today 6) today) (findings db),
     how_many (mitigated_between (sub_timedelta_days today 6) today) (findings db),
     how_many (risk_acceptance_created_between (sub_timedelta_days today 6) today)
       (findings db)).
Proof. reflexivity. Qed.

Lemma how_many_split {A} (P Q : A → Prop) `{!∀ x, Decision (P x)}
    `{!∀ x, Decision (Q x)} l :
  how_many P l = how_many (λ x, P x ∧ Q x) l + how_many (λ x, P x ∧ ¬ Q x) l.
Proof.
  induction l as [|x l IH]; [done|]. rewrite !how_many_cons, IH.
  destruct (decide (P x)), (decide (Q x)).
  - rewrite decide_True, decide_False by tauto. lia.
  - rewrite decide_False, decide_True by tauto. lia.
  - rewrite !decide_False by tauto. lia.
  - rewrite !decide_False by tauto. lia.
Qed.

(** X12: [finding_count] against the window of seven days.  It is the number
    of findings created on a day from [today - 6] to [today], less those
    created on [today] after 0:00: the filter ends at the first instant of
    [today].  So it never exceeds the number for the seven days, and reaches
    it exactly when no finding of the collection was created on [today]
    after 0:00. *)
Theorem finding_count_against_window (findings : QuerySet Finding.t) today db :
  (∀ f, f ∈ findings db → 0 ≤ time_of (Finding.created f)) →
  (trailing_week_counts findings today db).1.1.1
  = how_many (λ f, date_le (sub_timedelta_days today 6) (date_of (Finding.created f))
                   ∧ date_le (date_of (Finding.created f)) today) (findings db)
    - how_many (λ f, (date_le (sub_timedelta_days today 6) (date_of (Finding.created f))
                      ∧ date_le (date_of (Finding.created f)) today)
                     ∧ (date_of (Finding.created f) = today
                        ∧ 0 < time_of (Finding.created f))) (findings db).
Proof.
  intros Htime. rewrite trailing_week_counts_unfold. cbn [fst].
  rewrite (how_many_split
    (λ f, date_le (sub_timedelta_days today 6) (date_of (Finding.created f))
          ∧ date_le (date_of (Finding.created f)) today)
    (λ f, date_of (Finding.created f) = today ∧ 0 < time_of (Finding.created f))).
  match goal with |- ?a = ?b + ?c - ?b => cut (a = c); [lia|] end.
  apply how_many_ext. intros f Hf. unfold created_between.
  rewrite datetime_between_spec by (by apply Htime).
  pose proof (Htime f Hf) as Ht.
  rewrite !date_le_spec, date_lt_spec. split.
  - intros [Hlo [Hlt|[Heq Hz]]].
    + split; [split; [done|lia]|]. intros [Heq _]. rewrite Heq in Hlt. lia.
    + subst today. split; [split; [done|lia]|]. lia.
  - intros [[Hlo Hhi] Hnot]. split; [done|].
    destruct (decide (date_of (Finding.created f) = today)) as [Heq|Hne].
    + right. split; [done|].
      destruct (decide (0 < time_of (Finding.created f))); [by destruct Hnot | lia].
    + left. destruct (date_of (Finding.created f)) as [y1 m1 d1], today as [y2 m2 d2].
      cbn [year month day] in *.
      destruct (decide (d1 = d2)); [|lia].
      destruct (decide (m1 = m2)); [|lia].
      destruct (decide (y1 = y2)); [|lia]. congruence.
Qed.

Lemma finding_count_against_window_witness :
  (trailing_week_counts all_findings sample_today db_created_today).1.1.1
  = how_many (λ f, date_le (sub_timedelta_days sample_today 6)
                     (date_of (Finding.created f))
                   ∧ date_le (date_of (Finding.created f)) sample_today)
      (all_findings db_created_today)
    - how_many (λ f, (date_le (sub_timedelta_days sample_today 6)
                        (date_of (Finding.created f))
                      ∧ date_le (date_of (Finding.created f)) sample_today)
                     ∧ (date_of (Finding.created f) = sample_today
                        ∧ 0 < time_of (Finding.created f)))
        (all_findings db_created_today).
Proof.
  apply finding_count_against_window. intros f Hf. vm_compute in Hf.
  apply elem_of_cons in Hf as [->|Hf]; [vm_compute; discriminate|].
  by apply not_elem_of_nil in Hf.
Defined.

(** X13: bounds of the three counts of the week.  None is negative or larger
    than the collection; [mitigated_count] counts only findings that have a
    mitigation time; and [accepted_count] counts findings, each at most once
    however many of its risk acceptances fall into the window. *)
Theorem trailing_week_counts_bounds (findings : QuerySet Finding.t) today db :
  0 ≤ (trailing_week_counts findings today db).1.1.1 ≤ Z.of_nat (length (findings db))
  ∧ 0 ≤ (trailing_week_counts findings today db).1.1.2
      ≤ how_many (λ f, is_Some (Finding.mitigated f)) (findings db)
  ∧ 0 ≤ (trailing_week_counts findings today db).1.2
      ≤ how_many (λ f, Finding.risk_acceptance_set f ≠ []) (findings db)
  ∧ how_many (λ f, Finding.risk_acceptance_set f ≠ []) (findings db)
    ≤ Z.of_nat (length (findings db)).
Proof.
  rewrite trailing_week_counts_unfold. cbn [fst snd].
  assert (∀ (P Q : Finding.t → Prop) `{!∀ x, Decision (P x)}
            `{!∀ x, Decision (Q x)} l,
            (∀ x, P x → Q x) → how_many P l ≤ how_many Q l) as Hmono.
  { intros P Q ?? l HPQ. rewrite (how_many_split Q P).
    rewrite (how_many_ext (λ x, Q x ∧ P x) P) by (intros; split; [tauto|auto]).
    pose proof (how_many_nonneg (λ x, Q x ∧ ¬ P x) l). lia. }
  repeat split; try apply how_many_nonneg; try apply how_many_le_length.
  - apply Hmono. intros f. unfold mitigated_between.
    destruct (Finding.mitigated f); [by eexists | done].
  - apply Hmono. intros f. unfold risk_acceptance_created_between.
    intros Hex Hnil. rewrite Hnil in Hex. by apply Exists_nil in Hex.
Qed.
(** ** The calendar arithmetic behind [today - timedelta(days=6)] *)

Lemma days_before_year_decomp q400 q100 q4 q1 :
  0 ≤ q100 ≤ 3 → 0 ≤ q4 ≤ 24 → 0 ≤ q1 ≤ 3 →
  days_before_year (400 * q400 + 100 * q100 + 4 * q4 + q1 + 1)
  = 146097 * q400 + 36524 * q100 + 1461 * q4 + 365 * q1.
Proof.
  intros H100 H4 H1. unfold days_before_year.
  replace (400 * q400 + 100 * q100 + 4 * q4 + q1 + 1 - 1)
    with (400 * q400 + 100 * q100 + 4 * q4 + q1) by lia.
  cbv zeta.
  assert ((400 * q400 + 100 * q100 + 4 * q4 + q1) `div` 4
          = 100 * q400 + 25 * q100 + q4) as ->
    by (symmetry; apply Z.div_unique with q1; lia).
  assert ((400 * q400 + 100 * q100 + 4 * q4 + q1) `div` 100
          = 4 * q400 + q100) as ->
    by (symmetry; apply Z.div_unique with (4 * q4 + q1); lia).
  assert ((400 * q400 + 100 * q100 + 4 * q4 + q1) `div` 400 = q400) as ->
    by (symmetry; apply Z.div_unique with (100 * q100 + 4 * q4 + q1); lia).
  lia.
Qed.

Lemma isleap_decomp q400 q100 q4 q1 :
  0 ≤ q100 ≤ 3 → 0 ≤ q4 ≤ 24 → 0 ≤ q1 ≤ 3 →
  isleap (400 * q400 + 100 * q100 + 4 * q4 + q1 + 1)
  = (q1 =? 3) && (negb (q4 =? 24) || (q100 =? 3)).
Proof.
  intros H100 H4 H1. unfold isleap.
  set (yr := 400 * q400 + 100 * q100 + 4 * q4 + q1 + 1).
  assert (yr `mod` 4 = (q1 + 1) `mod` 4) as ->.
  { unfold yr. replace (400 * q400 + 100 * q100 + 4 * q4 + q1 + 1)
      with (q1 + 1 + (100 * q400 + 25 * q100 + q4) * 4) by lia.
    apply Z.mod_add. lia. }
  assert (yr `mod` 100 = (4 * q4 + q1 + 1) `mod` 100) as ->.
  { unfold yr. replace (400 * q400 + 100 * q100 + 4 * q4 + q1 + 1)
      with (4 * q4 + q1 + 1 + (4 * q400 + q100) * 100) by lia.
    apply Z.mod_add. lia. }
  assert (yr `mod` 400 = (100 * q100 + 4 * q4 + q1 + 1) `mod` 400) as ->.
  { unfold yr. replace (400 * q400 + 100 * q100 + 4 * q4 + q1 + 1)
      with (100 * q100 + 4 * q4 + q1 + 1 + q400 * 400) by lia.
    apply Z.mod_add. lia. }
  destruct (Z.eqb_spec q1 3) as [->|Hq1]; cbn [andb].
  - change (3 + 1) with 4. rewrite Z.mod_same by lia. cbn [Z.eqb andb].
    destruct (Z.eqb_spec q4 24) as [->|Hq4]; cbn [negb orb].
    + change ((4 * 24 + 3 + 1) `mod` 100) with 0. cbn [Z.eqb negb orb].
      destruct (Z.eqb_spec q100 3) as [->|Hq100]; [done|].
      apply Z.eqb_neq. rewrite Z.mod_small by lia. lia.
    + assert ((4 * q4 + 3 + 1) `mod` 100 ≠ 0) as Hne
        by (rewrite Z.mod_small by lia; lia).
      apply Z.eqb_neq in Hne. by rewrite Hne.
  - assert ((q1 + 1) `mod` 4 ≠ 0) as Hne by (rewrite Z.mod_small by lia; lia).
    apply Z.eqb_neq in Hne. by rewrite Hne.
Qed.
(** The date that [fromordinal] gives is a date of the calendar, and
    [toordinal] leads back from it. *)
Lemma fromordinal_spec n :
  1 ≤ n →
  toordinal (fromordinal n) = n
  ∧ 1 ≤ year (fromordinal n)
  ∧ 1 ≤ month (fromordinal n) ≤ 12
  ∧ 1 ≤ day (fromordinal n)
      ≤ days_in_month (year (fromordinal n)) (month (fromordinal n)).
Proof.
  intros Hn. unfold fromordinal. cbv zeta.
  pose proof (Z.div_mod (n - 1) 146097 ltac:(lia)) as E1.
  pose proof (Z.mod_pos_bound (n - 1) 146097 ltac:(lia)) as B1.
  pose proof (Z.div_pos (n - 1) 146097 ltac:(lia) ltac:(lia)) as P1.
  set (q400 := (n - 1) `div` 146097) in *.
  set (r1 := (n - 1) `mod` 146097) in *.
  pose proof (Z.div_mod r1 36524 ltac:(lia)) as E2.
  pose proof (Z.mod_pos_bound r1 36524 ltac:(lia)) as B2.
  set (q100 := r1 `div` 36524) in *. set (r2 := r1 `mod` 36524) in *.
  pose proof (Z.div_mod r2 1461 ltac:(lia)) as E3.
  pose proof (Z.mod_pos_bound r2 1461 ltac:(lia)) as B3.
  set (q4 := r2 `div` 1461) in *. set (r3 := r2 `mod` 1461) in *.
  pose proof (Z.div_mod r3 365 ltac:(lia)) as E4.
  pose proof (Z.mod_pos_bound r3 365 ltac:(lia)) as B4.
  set (q1 := r3 `div` 365) in *. set (r4 := r3 `mod` 365) in *.
  clearbody q400 r1 q100 r2 q4 r3 q1 r4.
  assert (0 ≤ q100 ≤ 4 ∧ 0 ≤ q4 ≤ 24 ∧ 0 ≤ q1 ≤ 4) as (H100 & H4 & H1) by lia.
  destruct (Z.eqb_spec q1 4) as [Hq1|Hq1]; cbn [orb].
  { (* the last day of a leap year *)
    cbn [year month day].
    replace (q400 * 400 + 1 + q100 * 100 + q4 * 4 + q1 - 1)
      with (400 * q400 + 100 * q100 + 4 * q4 + 3 + 1) by lia.
    unfold toordinal, days_before_month, days_in_month. cbn [year month day].
    rewrite days_before_year_decomp, isleap_decomp by lia.
    assert (q4 ≠ 24) as Hq4 by lia. apply Z.eqb_neq in Hq4. rewrite Hq4.
    cbn. lia. }
  destruct (Z.eqb_spec q100 4) as [Hq100|Hq100].
  { (* the last day of a cycle of 400 years *)
    cbn [year month day].
    replace (q400 * 400 + 1 + q100 * 100 + q4 * 4 + q1 - 1)
      with (400 * q400 + 100 * 3 + 4 * 24 + 3 + 1) by lia.
    unfold toordinal, days_before_month, days_in_month. cbn [year month day].
    rewrite days_before_year_decomp, isleap_decomp by lia.
    cbn. lia. }
  replace (q400 * 400 + 1 + q100 * 100 + q4 * 4 + q1)
    with (400 * q400 + 100 * q100 + 4 * q4 + q1 + 1) by lia.
  pose proof (isleap_decomp q400 q100 q4 q1 ltac:(lia) ltac:(lia) ltac:(lia)) as Hleap.
  pose proof (days_before_year_decomp q400 q100 q4 q1 ltac:(lia) ltac:(lia)
                ltac:(lia)) as Hdby.
  set (yr := 400 * q400 + 100 * q100 + 4 * q4 + q1 + 1) in *.
  assert (1 ≤ yr) as Hyr by (unfold yr; lia).
  set (leap := (q1 =? 3) && (negb (q4 =? 24) || (q100 =? 3))) in *.
  rewrite Z.shiftr_div_pow2 by lia. change (2 ^ 5) with 32.
  pose proof (Z.div_mod (r4 + 50) 32 ltac:(lia)) as E5.
  pose proof (Z.mod_pos_bound (r4 + 50) 32 ltac:(lia)) as B5.
  set (mo := (r4 + 50) `div` 32) in *. set (r5 := (r4 + 50) `mod` 32) in *.
  clearbody mo r5 yr leap.
  assert (mo = 1 ∨ mo = 2 ∨ mo = 3 ∨ mo = 4 ∨ mo = 5 ∨ mo = 6 ∨ mo = 7 ∨ mo = 8
          ∨ mo = 9 ∨ mo = 10 ∨ mo = 11 ∨ mo = 12) as Hmo by lia.
  unfold toordinal, days_before_month, days_in_month.
  repeat (destruct Hmo as [Hmo|Hmo];
          [subst mo; destruct leap; cbn;
           repeat (cbn [year month day];
                   match goal with
                   | |- context [?a <? ?b] => destruct (Z.ltb_spec a b)
                   end);
           cbn [year month day] in *;
           repeat match goal with
                  | |- context [Z.pos ?p - 1] =>
                      let v := eval vm_compute in (Z.pos p - 1) in
                      change (Z.pos p - 1) with v
                  end;
           rewrite ?Hleap, ?Hdby; cbn in *; lia|]).
  subst mo; destruct leap; cbn;
           repeat (cbn [year month day];
                   match goal with
                   | |- context [?a <? ?b] => destruct (Z.ltb_spec a b)
                   end);
           cbn [year month day] in *;
           repeat match goal with
                  | |- context [Z.pos ?p - 1] =>
                      let v := eval vm_compute in (Z.pos p - 1) in
                      change (Z.pos p - 1) with v
                  end;
           rewrite ?Hleap, ?Hdby; cbn in *; lia.
Qed.
Lemma days_before_year_succ yr :
  days_before_year (yr + 1)
  = days_before_year yr + 365 + (if isleap yr then 1 else 0).
Proof.
  unfold days_before_year, isleap. cbv zeta.
  replace (yr + 1 - 1) with yr by lia.
  destruct (Z.eqb_spec (yr `mod` 4) 0), (Z.eqb_spec (yr `mod` 100) 0),
           (Z.eqb_spec (yr `mod` 400) 0); cbn [andb orb negb];
    Z.div_mod_to_equations; lia.
Qed.

Lemma days_before_year_mono y1 y2 :
  y1 ≤ y2 → days_before_year y1 ≤ days_before_year y2.
Proof.
  intros Hle. unfold days_before_year. cbv zeta. Z.div_mod_to_equations. lia.
Qed.

Lemma month_cases mo :
  1 ≤ mo ≤ 12 →
  mo = 1 ∨ mo = 2 ∨ mo = 3 ∨ mo = 4 ∨ mo = 5 ∨ mo = 6 ∨ mo = 7 ∨ mo = 8
  ∨ mo = 9 ∨ mo = 10 ∨ mo = 11 ∨ mo = 12.
Proof. lia. Qed.

(** The day of the year of a valid month and day. *)
Lemma day_of_year_bounds yr mo dy :
  1 ≤ mo ≤ 12 → 1 ≤ dy ≤ days_in_month yr mo →
  1 ≤ days_before_month yr mo + dy ≤ 365 + (if isleap yr then 1 else 0).
Proof.
  intros Hmo. unfold days_before_month, days_in_month.
  destruct (month_cases mo Hmo) as [->|[->|[->|[->|[->|[->|[->|[->|[->|[->|[->| ->]]]]]]]]]]];
    destruct (isleap yr); cbn; lia.
Qed.

Lemma days_before_month_lt yr m1 m2 dy :
  1 ≤ m1 → m1 < m2 → m2 ≤ 12 → 1 ≤ dy ≤ days_in_month yr m1 →
  days_before_month yr m1 + dy ≤ days_before_month yr m2.
Proof.
  intros H1 H12 H2. unfold days_before_month, days_in_month.
  destruct (month_cases m1 ltac:(lia)) as [->|[->|[->|[->|[->|[->|[->|[->|[->|[->|[->| ->]]]]]]]]]]];
    destruct (month_cases m2 ltac:(lia)) as [->|[->|[->|[->|[->|[->|[->|[->|[->|[->|[->| ->]]]]]]]]]]];
    try lia; destruct (isleap yr); cbn; lia.
Qed.

(** Later dates have larger ordinals. *)
Lemma toordinal_lt d1 d2 :
  1 ≤ month d1 ≤ 12 → 1 ≤ day d1 ≤ days_in_month (year d1) (month d1) →
  1 ≤ month d2 ≤ 12 → 1 ≤ day d2 ≤ days_in_month (year d2) (month d2) →
  date_lt d1 d2 → toordinal d1 < toordinal d2.
Proof.
  intros Hm1 Hd1 Hm2 Hd2 Hlt. apply date_lt_spec in Hlt. unfold toordinal.
  pose proof (day_of_year_bounds _ _ _ Hm1 Hd1) as B1.
  pose proof (day_of_year_bounds _ _ _ Hm2 Hd2) as B2.
  destruct Hlt as [Hy|[Hy [Hm|[Hm Hd]]]].
  - pose proof (days_before_year_succ (year d1)) as Hs.
    pose proof (days_before_year_mono (year d1 + 1) (year d2) ltac:(lia)). lia.
  - rewrite Hy in *.
    pose proof (days_before_month_lt (year d2) (month d1) (month d2) (day d1)
                  ltac:(lia) Hm ltac:(lia) Hd1). lia.
  - rewrite Hy, Hm. lia.
Qed.

Lemma toordinal_le_iff d1 d2 :
  1 ≤ month d1 ≤ 12 → 1 ≤ day d1 ≤ days_in_month (year d1) (month d1) →
  1 ≤ month d2 ≤ 12 → 1 ≤ day d2 ≤ days_in_month (year d2) (month d2) →
  date_le d1 d2 ↔ toordinal d1 ≤ toordinal d2.
Proof.
  intros Hm1 Hd1 Hm2 Hd2. split.
  - intros Hle. destruct (decide (d1 = d2)) as [->|Hne]; [lia|].
    apply Z.lt_le_incl, toordinal_lt; try done.
    apply date_le_spec in Hle. apply date_lt_spec.
    destruct d1 as [y1 m1 a1], d2 as [y2 m2 a2]. cbn [year month day] in *.
    destruct (decide (a1 = a2)); [|lia].
    destruct (decide (m1 = m2)); [|lia].
    destruct (decide (y1 = y2)); [|lia]. congruence.
  - intros Hle. apply date_le_spec.
    destruct (decide (date_lt d2 d1)) as [Hlt|Hnlt].
    + apply toordinal_lt in Hlt; try done. lia.
    + rewrite date_lt_spec in Hnlt. lia.
Qed.

(** X14: [today - timedelta(days=n)] is a date of the calendar that lies [n]
    days before [today], so that the days from [today - timedelta(days=6)]
    to [today] are seven: a date lies between the two exactly when its
    ordinal is one of the seven up to that of [today]. *)
Theorem sub_timedelta_days_spec today n :
  valid_date today → 0 ≤ n < toordinal today →
  toordinal (sub_timedelta_days today n) = toordinal today - n
  ∧ valid_date (sub_timedelta_days today n)
  ∧ date_le (sub_timedelta_days today n) today
  ∧ ∀ d, valid_date d →
         date_le (sub_timedelta_days today n) d ∧ date_le d today
         ↔ toordinal today - n ≤ toordinal d ≤ toordinal today.
Proof.
  intros (Hy & Hm & Hd) Hn. unfold sub_timedelta_days.
  destruct (fromordinal_spec (toordinal today - n) ltac:(lia))
    as (Hord & Hby & Hbm & Hbd).
  assert (date_le (fromordinal (toordinal today - n)) today) as Hle.
  { apply toordinal_le_iff; try done. lia. }
  split; [done|]. split; [|split; [done|]].
  - split; [|done]. apply date_le_spec in Hle. lia.
  - intros d (Hdy & Hdm & Hdd).
    rewrite !toordinal_le_iff by done. lia.
Qed.

Lemma sub_timedelta_days_spec_witness :
  toordinal (sub_timedelta_days sample_today 6) = toordinal sample_today - 6.
Proof.
  apply (sub_timedelta_days_spec sample_today 6).
  - vm_compute. intuition discriminate.
  - vm_compute. split; [discriminate | reflexivity].
Defined.
(** X15: with valid creation dates, the table has exactly one row for each
    calendar month in which a finding of the window was created; rows of
    different months never share a key. *)
Theorem by_month_one_row_per_calendar_month (findings : QuerySet Finding.t)
    today db :
  (∀ f, f ∈ findings db → valid_date (date_of (Finding.created f))) →
  y <$> (get_severities_by_month findings today db).1
  ≡ₚ (λ m, month_key m.1 m.2)
     <$> remove_dups ((λ f, (created_year f, created_month f))
                      <$> in_window today (findings db))
  ∧ length (get_severities_by_month findings today db).1
    = length (remove_dups ((λ f, (created_year f, created_month f))
                           <$> in_window today (findings db))).
Proof.
  intros Hvalid.
  set (W := in_window today (findings db)).
  assert (∀ m, m ∈ remove_dups ((λ f, (created_year f, created_month f)) <$> W)
               → 1 ≤ m.2 ≤ 12) as Hmonths.
  { intros m (f & -> & [_ Hf]%in_window_elem)%elem_of_remove_dups%list_elem_of_fmap.
    apply (Hvalid f Hf). }
  assert (y <$> (get_severities_by_month findings today db).1
          ≡ₚ (λ m, month_key m.1 m.2)
             <$> remove_dups ((λ f, (created_year f, created_month f)) <$> W))
    as Hp.
  { destruct (by_month_one_row_per_month_keys findings today db) as [-> _].
    fold W. apply NoDup_Permutation.
    - apply NoDup_remove_dups.
    - apply NoDup_fmap_2_strong; [|apply NoDup_remove_dups].
      intros [y1 m1] [y2 m2] H1 H2 Heq. cbn [fst snd] in Heq.
      apply month_key_inj in Heq as [-> ->]; [done|..].
      + apply (Hmonths _ H1).
      + apply (Hmonths _ H2).
    - intros key. rewrite elem_of_remove_dups, !list_elem_of_fmap. split.
      + intros (f & -> & Hf). exists (created_year f, created_month f).
        split; [done|]. apply elem_of_remove_dups, list_elem_of_fmap.
        by exists f.
      + intros (m & -> & (f & -> & Hf)%elem_of_remove_dups%list_elem_of_fmap).
        by exists f. }
  split; [done|]. rewrite <-(length_fmap y), Hp. by rewrite length_fmap.
Qed.

Lemma by_month_one_row_per_calendar_month_witness :
  length (get_severities_by_month all_findings sample_today db_mixed).1
  = length (remove_dups ((λ f, (created_year f, created_month f))
                         <$> in_window sample_today (all_findings db_mixed))).
Proof.
  apply (by_month_one_row_per_calendar_month all_findings sample_today db_mixed).
  exact db_mixed_valid.
Defined.

(** X16: the keys of the totals are the severities that occur in the
    collection, [None] for a missing one.  The entry of a label is at least
    1: the mapping holds no label with count 0, and the only entry that can
    be 0 is that of [None], which always is. *)
Theorem get_severities_all_keys (findings : QuerySet Finding.t) db :
  (∀ k, is_Some (dict_items (get_severities_all findings db).1 !! k)
        ↔ ∃ f, f ∈ findings db ∧ Finding.severity f = k)
  ∧ (∀ label n,
       dict_items (get_severities_all findings db).1 !! Some label = Some n →
       1 ≤ n)
  ∧ (∀ n, dict_items (get_severities_all findings db).1 !! None = Some n → n = 0).
Proof.
  split; [|split].
  - intros k. rewrite get_severities_all_lookup.
    destruct (decide (k ∈ Finding.severity <$> findings db)) as [Hin|Hnin].
    + split; [|by eexists]. intros _.
      apply list_elem_of_fmap in Hin as (f & -> & Hf). by exists f.
    + split; [by intros [? ?]|]. intros (f & Hf & <-). destruct Hnin.
      apply list_elem_of_fmap. by exists f.
  - intros label n. rewrite get_severities_all_lookup.
    destruct (decide (Some label ∈ Finding.severity <$> findings db)) as [Hin|];
      [|done].
    intros [= <-]. apply list_elem_of_fmap in Hin as (f & Hl & Hf).
    apply (how_many_pos _ _ f); [done|]. split; [by rewrite <-Hl | done].
  - intros n. rewrite get_severities_all_lookup. case_decide; [|done].
    intros [= <-]. apply how_many_zero. intros f _ [[x Hx] Hn]. congruence.
Qed.

Lemma get_severities_all_keys_witness :
  1 ≤ 1.
Proof.
  apply (proj1 (proj2 (get_severities_all_keys all_findings db_mixed)) "High" 1).
  reflexivity.
Defined.
